(** * Product video generator: job store, pipeline and polling monitor

    A shallow embedding of the orchestration code of the product video
    generator (api_server.py, generate_video_with_keyframes.py,
    download_from_s3.py, process_video.py) and the properties of its
    job store, background pipeline and polling loop.

    Conventions of the embedding:
    - Python dictionaries used as tables are [gmap string _];
    - [datetime.now()] reads a logical clock kept in the store, one tick
      per call; timestamps are clock readings;
    - a Python call that may raise returns an [outcome];
    - everything outside the process (Bedrock, S3, ffmpeg, uuid4) is an
      oracle argument of the function that talks to it. *)

From Stdlib Require Import ZArith String Ascii List Lia Permutation Sorted.
From stdpp Require Import base gmap strings list fin_maps pretty.

#[local] Set Warnings "-clear-no-such-hyp".

Local Open Scope Z_scope.
Local Open Scope string_scope.
Local Open Scope list_scope.

(** ** Python values, exceptions and outcomes *)

Module Py.

(** The exceptions the code raises.  [SystemExit] derives from
    [BaseException] only; the three others derive from [Exception]. *)
Inductive exn : Type :=
  | Exception (msg : string)
  | KeyError (key : string)
  | HTTPException (status_code : Z) (detail : string)
  | SystemExit (code : Z).

(** [isinstance(e, Exception)]: what an [except Exception] clause catches. *)
Definition is_Exception (e : exn) : bool :=
  match e with
  | SystemExit _ => false
  | _ => true
  end.

(** [str(e)].  [KeyError] shows the repr of its key; Starlette's
    [HTTPException] shows its status code and detail. *)
Definition str (e : exn) : string :=
  match e with
  | Exception msg => msg
  | KeyError key => "'" +:+ key +:+ "'"
  | HTTPException code detail => pretty code +:+ ": " +:+ detail
  | SystemExit code => pretty code
  end.

Inductive outcome (A : Type) : Type :=
  | Ret (a : A)
  | Raise (e : exn).
Arguments Ret {A} a.
Arguments Raise {A} e.

(** Truth value of an [Optional[str]]: [None] and the empty string are
    false. *)
Definition truthy (o : option string) : bool :=
  match o with
  | Some s => negb (String.eqb s "")
  | None => false
  end.

(** [sorted(xs)] on strings (code point order), by insertion. *)
Fixpoint insert_sorted (x : string) (xs : list string) : list string :=
  match xs with
  | [] => [x]
  | y :: ys => if String.leb x y then x :: y :: ys else y :: insert_sorted x ys
  end.

Definition sorted (xs : list string) : list string :=
  foldr insert_sorted [] xs.

(** [sep.join(xs)]. *)
Definition join (sep : string) (xs : list string) : string :=
  String.concat sep xs.

(** [s.split(".")[-1]] together with the test ["." in s]: the text after
    the last dot, if there is a dot. *)
Fixpoint after_last_dot (s : string) : option string :=
  match s with
  | EmptyString => None
  | String c rest =>
      match after_last_dot rest with
      | Some ext => Some ext
      | None => if Ascii.eqb c "."%char then Some rest else None
      end
  end.

End Py.
Import Py.

(** ** api_server.py: records and the three tables *)

Inductive JobStatus : Type :=
  | PENDING | UPLOADING | GENERATING | DOWNLOADING | PROCESSING
  | COMPLETED | FAILED.

Global Instance JobStatus_eq_dec : EqDecision JobStatus.
Proof. solve_decision. Defined.

Abbreviation timestamp := nat (only parsing).

Module VideoSettings.
Record t : Type := mk {
  aspect_ratio : string;
  duration : string;
  resolution : string;
  loop : bool;
  region : string
}.
Definition default : t :=
  mk "16:9" "5s" "720p" false "us-west-2".
End VideoSettings.

Module VideoGenerationRequest.
Record t : Type := mk {
  product_name : string;
  prompt : string;
  s3_bucket : string;
  settings : VideoSettings.t
}.
End VideoGenerationRequest.

(** A job record, the value stored under [jobs_db[job_id]]. *)
Module Job.
Record t : Type := mk {
  job_id : string;
  product_name : string;
  status : JobStatus;
  progress : Z;
  message : string;
  created_at : timestamp;
  updated_at : timestamp;
  video_url : option string;
  error : option string
}.
End Job.

(** A video record, the value stored under [videos_db[job_id]]. *)
Module Video.
Record t : Type := mk {
  video_id : string;
  product_name : string;
  prompt : string;
  status : string;
  created_at : timestamp;
  final_video_path : string;
  original_video_path : string;
  start_keyframe : string;
  end_keyframe : option string;
  job_id : string;
  s3_uri : option string
}.
End Video.

(** A keyframe mapping, the value stored under [keyframes_db[product]]. *)
Module Keyframes.
Record t : Type := mk {
  start_frame : option string;
  end_frame : option string;
  uploaded_at : timestamp
}.
End Keyframes.

(** The document written to [DB_FILE] by [save_database]. *)
Module Snapshot.
Record t : Type := mk {
  jobs : gmap string Job.t;
  videos : gmap string Video.t;
  keyframes : gmap string Keyframes.t;
  last_updated : timestamp
}.
End Snapshot.

(** The module-level state of api_server.py: the three dictionaries, the
    contents of the database file, and the clock. *)
Record Store : Type := mkStore {
  jobs_db : gmap string Job.t;
  videos_db : gmap string Video.t;
  keyframes_db : gmap string Keyframes.t;
  db_file : option Snapshot.t;
  clock : nat
}.

Definition empty_store : Store := mkStore ∅ ∅ ∅ None 0.

Definition BASE_DIR : string := "/app/data".
Definition KEYFRAMES_DIR : string := BASE_DIR +:+ "/keyframes".
Definition VIDEOS_DIR : string := BASE_DIR +:+ "/videos".

(** [dir / name] of pathlib and [os.path.join(dir, name)], for a relative
    [name]. *)
Definition path_join (dir name : string) : string := dir +:+ "/" +:+ name.

(** [datetime.now()]: read the clock and let it tick. *)
Definition datetime_now (σ : Store) : timestamp * Store :=
  (clock σ,
   mkStore (jobs_db σ) (videos_db σ) (keyframes_db σ) (db_file σ) (S (clock σ))).

Definition set_jobs_db (m : gmap string Job.t) (σ : Store) : Store :=
  mkStore m (videos_db σ) (keyframes_db σ) (db_file σ) (clock σ).

Definition set_videos_db (m : gmap string Video.t) (σ : Store) : Store :=
  mkStore (jobs_db σ) m (keyframes_db σ) (db_file σ) (clock σ).

Definition set_keyframes_db (m : gmap string Keyframes.t) (σ : Store) : Store :=
  mkStore (jobs_db σ) (videos_db σ) m (db_file σ) (clock σ).

(** [save_database()]: the three tables and the time are written to the
    database file.  A failing write is swallowed by the function's own
    [except]; the embedding takes the write to succeed. *)
Definition save_database (σ : Store) : Store :=
  let '(now, σ) := datetime_now σ in
  mkStore (jobs_db σ) (videos_db σ) (keyframes_db σ)
    (Some (Snapshot.mk (jobs_db σ) (videos_db σ) (keyframes_db σ) now))
    (clock σ).

(** [create_job(product_name)], with the value of [uuid.uuid4()] as
    argument. *)
Definition create_job (uuid : string) (product_name : string) (σ : Store)
  : string * Store :=
  let job_id := uuid in
  let '(timestamp, σ) := datetime_now σ in
  let σ :=
    set_jobs_db
      (<[job_id := Job.mk job_id product_name PENDING 0 "Job created"
                     timestamp timestamp None None]> (jobs_db σ)) σ in
  (job_id, save_database σ).

(** [update_job(job_id, status, progress, message, error=None)]. *)
Definition update_job (job_id : string) (status : JobStatus) (progress : Z)
    (message : string) (error : option string) (σ : Store) : Store :=
  match jobs_db σ !! job_id with
  | Some j =>
      let '(now, σ) := datetime_now σ in
      let j' :=
        Job.mk (Job.job_id j) (Job.product_name j) status progress message
          (Job.created_at j) now (Job.video_url j)
          (if truthy error then error else Job.error j) in
      save_database (set_jobs_db (<[job_id := j']> (jobs_db σ)) σ)
  | None => σ
  end.

(** ** The world outside the process *)

(** The local file system, as the set of paths that exist. *)
Abbreviation files := (gset string) (only parsing).

(** What a boto3 call does: it answers, or raises one of its errors (all
    subclasses of [Exception]) with the given text. *)
Inductive boto (A : Type) : Type :=
  | Answers (a : A)
  | Fails (msg : string).
Arguments Answers {A} a.
Arguments Fails {A} msg.

(** How far a blocking call has come: it has returned, or it is still
    inside its loop when the supplied replies run out. *)
Inductive run (A : Type) : Type :=
  | Returned (a : A)
  | Polling.
Arguments Returned {A} a.
Arguments Polling {A}.

(** ** generate_video_with_keyframes.py *)

Module Bedrock.

(** The fields of a [get_async_invoke] response the code reads:
    [status], [outputDataConfig.s3OutputDataConfig.s3Uri] and
    [failureMessage]. *)
Record status_response : Type := mk_response {
  status : string;
  s3Uri : option string;
  failureMessage : option string
}.

(** One [get_async_invoke] call: the response, with the whole seconds
    [int(time.time() - start_time)] read right after it. *)
Record reply : Type := mk_reply {
  answer : boto status_response;
  elapsed : Z
}.

(** The service as seen by one invocation: the answer to
    [start_async_invoke] (the invocation ARN) and the answers to the
    successive status queries. *)
Record t : Type := mk {
  start_async_invoke : boto string;
  get_async_invoke : list reply
}.

End Bedrock.

(** What the monitoring loop does, in order. *)
Inductive event : Type :=
  | Query (invocation_arn : string)
  | Print_status (elapsed : Z) (status : string)
  | Print_success (elapsed : Z) (output_uri : string)
  | Print_failed (error : string)
  | Print_error (msg : string)
  | Sleep (seconds : Z).

Global Instance event_eq_dec : EqDecision event.
Proof. solve_decision. Defined.

(** [current_status != last_status], with [last_status] initially [None]. *)
Definition status_changed (current_status : string) (last_status : option string)
  : bool :=
  bool_decide (Some current_status ≠ last_status).

(** The [while True] loop of [generate_video_with_keyframes] (lines
    177-209), including the [except] clause that ends it when a query or a
    field access raises.  The recursion is on the replies still to come. *)
Fixpoint monitor (invocation_arn : string) (last_status : option string)
    (replies : list Bedrock.reply) : list event * run (option string) :=
  match replies with
  | [] => ([], Polling)
  | r :: replies =>
      match Bedrock.answer r with
      | Fails msg => ([Query invocation_arn; Print_error msg], Returned None)
      | Answers status_response =>
          let current_status := Bedrock.status status_response in
          let elapsed := Bedrock.elapsed r in
          let '(printed, last_status) :=
            if status_changed current_status last_status
            then ([Print_status elapsed current_status], Some current_status)
            else ([], last_status) in
          if String.eqb current_status "Completed" then
            match Bedrock.s3Uri status_response with
            | Some output_uri =>
                (Query invocation_arn :: printed
                   ++ [Print_success elapsed output_uri],
                 Returned (Some output_uri))
            | None =>
                (Query invocation_arn :: printed
                   ++ [Print_error (str (KeyError "outputDataConfig"))],
                 Returned None)
            end
          else if String.eqb current_status "Failed" then
            let error :=
              default "Unknown error" (Bedrock.failureMessage status_response) in
            (Query invocation_arn :: printed ++ [Print_failed error],
             Returned None)
          else
            let '(later, result) := monitor invocation_arn last_status replies in
            (Query invocation_arn :: printed ++ Sleep 15 :: later, result)
      end
  end.

(** [generate_video_with_keyframes(...)]: the two existence checks, the
    submission and the monitoring loop.  The request body is built from
    the arguments and does not influence the control flow. *)
Definition generate_video_with_keyframes
    (product_name prompt s3_bucket start_frame_path : string)
    (end_frame_path : option string)
    (aspect_ratio duration resolution : string) (loop : bool) (region : string)
    (bedrock : Bedrock.t) (fs : files) : list event * run (option string) :=
  if negb (bool_decide (start_frame_path ∈ fs)) then
    ([Print_error ("Start frame not found: " +:+ start_frame_path)],
     Returned None)
  else if truthy end_frame_path
          && negb (bool_decide (default "" end_frame_path ∈ fs)) then
    ([Print_error ("End frame not found: " +:+ default "" end_frame_path)],
     Returned None)
  else
    match Bedrock.start_async_invoke bedrock with
    | Fails msg => ([Print_error msg], Returned None)
    | Answers invocation_arn =>
        monitor invocation_arn None (Bedrock.get_async_invoke bedrock)
    end.

(** ** download_from_s3.py *)

Module S3.

(** One transfer as seen by the caller: [None] when every boto3 call
    (listing the prefix, finding the .mp4 key, moving the bytes) goes
    through, [Some msg] when one of them raises or no object is found. *)
Definition transfer : Type := option string.

End S3.

(** [download_from_s3(s3_uri, local_path)]: the local path on success, with
    the file now present; [None] on any error, which the function's own
    [except Exception] turns into a return value. *)
Definition download_from_s3 (s3_uri local_path : string) (s3 : S3.transfer)
    (fs : files) : option string * files :=
  match s3 with
  | None => (Some local_path, {[local_path]} ∪ fs)
  | Some _ => (None, fs)
  end.

(** [upload_to_s3(local_path, s3_uri, region)]: the URI on success, [None]
    when the local file is missing or the transfer raises. *)
Definition upload_to_s3 (local_path s3_uri region : string) (s3 : S3.transfer)
    (fs : files) : option string :=
  if negb (bool_decide (local_path ∈ fs)) then None
  else match s3 with
       | None => Some s3_uri
       | Some _ => None
       end.

(** ** process_video.py *)

Module Ffmpeg.

(** The three ffmpeg runs and the write of the concat list in between, in
    the order of the source: [None] for a step that goes through,
    [Some text] for one that raises ([ffmpeg.Error] or any other
    [Exception]) with that text. *)
Record t : Type := mk {
  reverse : option string;
  write_list : option string;
  concat : option string;
  setpts : option string
}.

Definition ok : t := mk None None None None.

End Ffmpeg.

(** [process_video(video_name, base_dir)].  A missing input raises
    [FileNotFoundError]; a failure inside the [try] reaches one of the two
    [except] clauses, both of which call [sys.exit(1)]. *)
Definition process_video (video_name base_dir : string) (ffmpeg : Ffmpeg.t)
    (fs : files) : outcome unit * files :=
  let video_directory := base_dir in
  let input_file := path_join video_directory (video_name +:+ ".mp4") in
  let reversed_file :=
    path_join video_directory (video_name +:+ "_reversed.mp4") in
  let combined_file :=
    path_join video_directory (video_name +:+ "_combined.mp4") in
  let final_file := path_join video_directory (video_name +:+ "_final.mp4") in
  let list_file := "list.txt" in
  if negb (bool_decide (input_file ∈ fs)) then
    let error_msg := "Error: " +:+ input_file +:+ " not found" in
    (Raise (Exception error_msg), fs)
  else
    match Ffmpeg.reverse ffmpeg with
    | Some _ => (Raise (SystemExit 1), fs)
    | None =>
        let fs := {[reversed_file]} ∪ fs in
        match Ffmpeg.write_list ffmpeg with
        | Some _ => (Raise (SystemExit 1), fs)
        | None =>
            let fs := {[list_file]} ∪ fs in
            match Ffmpeg.concat ffmpeg with
            | Some _ => (Raise (SystemExit 1), fs)
            | None =>
                let fs := {[combined_file]} ∪ fs in
                match Ffmpeg.setpts ffmpeg with
                | Some _ => (Raise (SystemExit 1), fs)
                | None =>
                    let fs := {[final_file]} ∪ fs in
                    (Ret tt,
                     fs ∖ {[reversed_file]} ∖ {[combined_file]} ∖ {[list_file]})
                end
            end
        end
    end.

(** ** api_server.py: the background pipeline *)

(** The keyword arguments [generate_video] hands to
    [background_tasks.add_task(process_video_generation, ...)]. *)
Module Kwargs.
Record t : Type := mk {
  job_id : string;
  product_name : string;
  prompt : string;
  s3_bucket : string;
  start_frame_path : string;
  end_frame_path : option string;
  settings : VideoSettings.t
}.
End Kwargs.

(** The blocking calls the pipeline hands to [asyncio.to_thread]. *)
Inductive call : Type :=
  | To_generate_video_with_keyframes
      (product_name prompt s3_bucket start_frame_path : string)
      (end_frame_path : option string)
      (aspect_ratio duration resolution : string) (loop : bool)
      (region : string)
  | To_download_from_s3 (s3_uri output_path : string)
  | To_process_video (video_base_name base_dir : string)
  | To_upload_to_s3 (final_video_path final_s3_uri region : string).

(** A coroutine between two suspension points.  At an [await] it holds
    the call it waits for and the rest of its body, which takes the
    call's outcome and runs on the store up to the next suspension point.
    [Finished] is a normal return, [Propagated e] an exception that left
    the coroutine. *)
#[warnings="-register-all"]
Inductive coro : Type :=
  | Await (c : call) (k : outcome (option string) → Store → Store * coro)
  | Finished
  | Propagated (e : exn).

(** The [except Exception as e] clause of [process_video_generation]
    (lines 282-288), entered with the exception raised in the [try] body. *)
Definition on_exception (job_id : string) (e : exn) (σ : Store)
  : Store * coro :=
  if is_Exception e then
    let error_msg := str e in
    (update_job job_id FAILED 0 ("Error: " +:+ error_msg) (Some error_msg) σ,
     Finished)
  else (σ, Propagated e).

(** Lines 262-280, after [await asyncio.to_thread(upload_to_s3, ...)]. *)
Definition after_upload (kw : Kwargs.t) (output_path final_video_path : string)
    (r : outcome (option string)) (σ : Store) : Store * coro :=
  let job_id := Kwargs.job_id kw in
  match r with
  | Raise e => on_exception job_id e σ
  | Ret uploaded_s3_uri =>
      match jobs_db σ !! job_id with
      | None => on_exception job_id (KeyError job_id) σ
      | Some j =>
          let j :=
            Job.mk (Job.job_id j) (Job.product_name j) (Job.status j)
              (Job.progress j) (Job.message j) (Job.created_at j)
              (Job.updated_at j) (Some ("/api/videos/download/" +:+ job_id))
              (Job.error j) in
          let σ := set_jobs_db (<[job_id := j]> (jobs_db σ)) σ in
          let σ :=
            update_job job_id COMPLETED 100 "Video processing completed!"
              None σ in
          match jobs_db σ !! job_id with
          | None => on_exception job_id (KeyError job_id) σ
          | Some j =>
              let video :=
                Video.mk job_id (Kwargs.product_name kw) (Kwargs.prompt kw)
                  "completed" (Job.created_at j) final_video_path output_path
                  (Kwargs.start_frame_path kw) (Kwargs.end_frame_path kw)
                  job_id uploaded_s3_uri in
              let σ := set_videos_db (<[job_id := video]> (videos_db σ)) σ in
              (save_database σ, Finished)
          end
      end
  end.

(** Lines 248-260, after [await asyncio.to_thread(process_video, ...)]. *)
Definition after_process (kw : Kwargs.t) (output_path video_base_name : string)
    (r : outcome (option string)) (σ : Store) : Store * coro :=
  let job_id := Kwargs.job_id kw in
  match r with
  | Raise e => on_exception job_id e σ
  | Ret _ =>
      let final_video_path :=
        path_join VIDEOS_DIR (video_base_name +:+ "_final.mp4") in
      let σ :=
        update_job job_id PROCESSING 90 "Uploading final video to S3..."
          None σ in
      let '(now, σ) := datetime_now σ in
      let timestamp := pretty now in
      let final_s3_key :=
        "product-videos/" +:+ Kwargs.product_name kw +:+ "/" +:+ timestamp
          +:+ "/" +:+ video_base_name +:+ "_final.mp4" in
      let final_s3_uri :=
        "s3://" +:+ Kwargs.s3_bucket kw +:+ "/" +:+ final_s3_key in
      (σ,
       Await
         (To_upload_to_s3 final_video_path final_s3_uri
            (VideoSettings.region (Kwargs.settings kw)))
         (after_upload kw output_path final_video_path))
  end.

(** Lines 241-246, after [await asyncio.to_thread(download_from_s3, ...)].
    The value the download returns is not looked at. *)
Definition after_download (kw : Kwargs.t) (output_path video_base_name : string)
    (r : outcome (option string)) (σ : Store) : Store * coro :=
  let job_id := Kwargs.job_id kw in
  match r with
  | Raise e => on_exception job_id e σ
  | Ret _ =>
      let σ :=
        update_job job_id PROCESSING 70 "Applying boomerang effect..." None σ in
      (σ,
       Await (To_process_video video_base_name VIDEOS_DIR)
         (after_process kw output_path video_base_name))
  end.

(** Lines 225-239, after
    [await asyncio.to_thread(generate_video_with_keyframes, ...)]. *)
Definition after_generate (kw : Kwargs.t) (r : outcome (option string))
    (σ : Store) : Store * coro :=
  let job_id := Kwargs.job_id kw in
  match r with
  | Raise e => on_exception job_id e σ
  | Ret s3_uri =>
      if negb (truthy s3_uri) then
        on_exception job_id
          (Exception "Video generation failed - no S3 URI returned") σ
      else
        let s3_uri := default "" s3_uri in
        let σ :=
          update_job job_id DOWNLOADING 50
            "Video generated! Downloading from S3..." None σ in
        let job_id_short := String.substring 0 8 job_id in
        let video_base_name :=
          Kwargs.product_name kw +:+ "_" +:+ job_id_short in
        let output_path := path_join VIDEOS_DIR (video_base_name +:+ ".mp4") in
        (σ,
         Await (To_download_from_s3 s3_uri output_path)
           (after_download kw output_path video_base_name))
  end.

(** [process_video_generation(job_id, product_name, prompt, s3_bucket,
    start_frame_path, end_frame_path, settings)], lines 204-223: from the
    start of the coroutine to its first [await]. *)
Definition process_video_generation (kw : Kwargs.t) (σ : Store)
  : Store * coro :=
  let σ :=
    update_job (Kwargs.job_id kw) GENERATING 10
      "Generating video with AWS Bedrock..." None σ in
  let settings := Kwargs.settings kw in
  (σ,
   Await
     (To_generate_video_with_keyframes (Kwargs.product_name kw)
        (Kwargs.prompt kw) (Kwargs.s3_bucket kw) (Kwargs.start_frame_path kw)
        (Kwargs.end_frame_path kw) (VideoSettings.aspect_ratio settings)
        (VideoSettings.duration settings) (VideoSettings.resolution settings)
        (VideoSettings.loop settings) (VideoSettings.region settings))
     (after_generate kw)).

(** ** api_server.py: the request handlers *)

(** [POST /api/videos/generate].  Besides the response and the store, the
    handler yields the tasks it added to [background_tasks].  Nothing in
    the [try] body raises anything but the two [HTTPException]s, which the
    first [except] clause re-raises. *)
Definition generate_video (request : VideoGenerationRequest.t) (uuid : string)
    (σ : Store) : outcome string * Store * list Kwargs.t :=
  let product_name := VideoGenerationRequest.product_name request in
  match keyframes_db σ !! product_name with
  | None =>
      let available_list :=
        if bool_decide (keyframes_db σ = ∅) then "none"
        else join ", " (sorted (elements (dom (keyframes_db σ)))) in
      (Raise
         (HTTPException 400
            ("No keyframes found for product: " +:+ product_name +:+ ". "
             +:+ "Please upload keyframes with this product name first. "
             +:+ "Available products: " +:+ available_list)),
       σ, [])
  | Some keyframe_data =>
      let start_frame_path := Keyframes.start_frame keyframe_data in
      let end_frame_path := Keyframes.end_frame keyframe_data in
      if negb (truthy start_frame_path) then
        (Raise
           (HTTPException 400
              ("No start frame found for product: " +:+ product_name +:+ ". "
               +:+ "Please upload keyframes.")),
         σ, [])
      else
        let '(job_id, σ) := create_job uuid product_name σ in
        (Ret job_id, σ,
         [Kwargs.mk job_id product_name
            (VideoGenerationRequest.prompt request)
            (VideoGenerationRequest.s3_bucket request)
            (default "" start_frame_path) end_frame_path
            (VideoGenerationRequest.settings request)])
  end.

(** [GET /api/jobs/{job_id}]. *)
Definition get_job_status (job_id : string) (σ : Store) : outcome Job.t :=
  match jobs_db σ !! job_id with
  | None => Raise (HTTPException 404 "Job not found")
  | Some j => Ret j
  end.


(** The loop of [delete_video] over the two paths: [unlink] every path that
    exists.  [refuses] tells for which paths the operating system raises,
    and with which text. *)
Fixpoint unlink_existing (paths : list string) (refuses : string → option string)
    (fs : files) : outcome unit * files :=
  match paths with
  | [] => (Ret tt, fs)
  | path_str :: paths =>
      if bool_decide (path_str ∈ fs) then
        match refuses path_str with
        | Some msg => (Raise (Exception msg), fs)
        | None => unlink_existing paths refuses (fs ∖ {[path_str]})
        end
      else unlink_existing paths refuses fs
  end.

(** [DELETE /api/videos/{video_id}]. *)
Definition delete_video (video_id : string) (refuses : string → option string)
    (σ : Store) (fs : files) : outcome string * Store * files :=
  match videos_db σ !! video_id with
  | None => (Raise (HTTPException 404 "Video not found"), σ, fs)
  | Some video_info =>
      let product_name := Video.product_name video_info in
      let σ := set_videos_db (delete video_id (videos_db σ)) σ in
      let σ := save_database σ in
      match
        unlink_existing
          [Video.original_video_path video_info;
           Video.final_video_path video_info] refuses fs
      with
      | (Ret _, fs) => (Ret ("Video " +:+ product_name +:+ " deleted"), σ, fs)
      | (Raise e, fs) =>
          (Raise (HTTPException 500 ("Delete failed: " +:+ str e)), σ, fs)
      end
  end.

(** An uploaded file, as far as [upload_keyframes] looks at it. *)
Module UploadFile.
Record t : Type := mk {
  content_type : string;
  filename : string
}.
End UploadFile.

Definition allowed_types : list string :=
  ["image/jpeg"; "image/png"; "image/webp"].

(** [POST /api/keyframes/upload], with the two values of [uuid.uuid4()].
    The whole body sits in one [try] whose [except Exception] also catches
    the two validation errors and re-raises them with status 500. *)
Definition upload_keyframes (product_name : string) (start_frame : UploadFile.t)
    (end_frame : option UploadFile.t) (uuid1 uuid2 : string)
    (σ : Store) (fs : files) : outcome string * Store * files :=
  let failed (e : exn) :=
    Raise (HTTPException 500 ("Upload failed: " +:+ str e)) in
  if negb (bool_decide (UploadFile.content_type start_frame ∈ allowed_types))
  then
    (failed
       (HTTPException 400
          ("Invalid start frame type: "
           +:+ UploadFile.content_type start_frame)), σ, fs)
  else
    match end_frame with
    | Some f =>
        if negb (bool_decide (UploadFile.content_type f ∈ allowed_types)) then
          (failed
             (HTTPException 400
                ("Invalid end frame type: " +:+ UploadFile.content_type f)),
           σ, fs)
        else
          let start_ext :=
            default "jpg" (after_last_dot (UploadFile.filename start_frame)) in
          let start_path :=
            path_join KEYFRAMES_DIR (uuid1 +:+ "." +:+ start_ext) in
          let fs := {[start_path]} ∪ fs in
          let end_ext := default "jpg" (after_last_dot (UploadFile.filename f)) in
          let end_path := path_join KEYFRAMES_DIR (uuid2 +:+ "." +:+ end_ext) in
          let fs := {[end_path]} ∪ fs in
          let '(now, σ) := datetime_now σ in
          let σ :=
            set_keyframes_db
              (<[product_name :=
                   Keyframes.mk (Some start_path) (Some end_path) now]>
                 (keyframes_db σ)) σ in
          (Ret product_name, save_database σ, fs)
    | None =>
        let start_ext :=
          default "jpg" (after_last_dot (UploadFile.filename start_frame)) in
        let start_path :=
          path_join KEYFRAMES_DIR (uuid1 +:+ "." +:+ start_ext) in
        let fs := {[start_path]} ∪ fs in
        let '(now, σ) := datetime_now σ in
        let σ :=
          set_keyframes_db
            (<[product_name := Keyframes.mk (Some start_path) None now]>
               (keyframes_db σ)) σ in
        (Ret product_name, save_database σ, fs)
    end.

(** ** The running server *)

(** What the outside world does during one [asyncio.to_thread] call. *)
Inductive oracle : Type :=
  | Bedrock_does (bedrock : Bedrock.t)
  | S3_does (s3 : S3.transfer)
  | Ffmpeg_does (ffmpeg : Ffmpeg.t).

(** [await asyncio.to_thread(f, ...)]: the call runs in a worker thread
    against the oracle; what it returns or raises (a [BaseException]
    included) is handed back to the awaiting coroutine.  [None] when the
    oracle is for another call, or when the call has not returned. *)
Definition to_thread (c : call) (o : oracle) (fs : files)
  : option (outcome (option string) * files) :=
  match c, o with
  | To_generate_video_with_keyframes product_name prompt s3_bucket
      start_frame_path end_frame_path aspect_ratio duration resolution loop
      region, Bedrock_does bedrock =>
      match
        generate_video_with_keyframes product_name prompt s3_bucket
          start_frame_path end_frame_path aspect_ratio duration resolution
          loop region bedrock fs
      with
      | (_, Returned s3_uri) => Some (Ret s3_uri, fs)
      | (_, Polling) => None
      end
  | To_download_from_s3 s3_uri output_path, S3_does s3 =>
      let '(r, fs) := download_from_s3 s3_uri output_path s3 fs in
      Some (Ret r, fs)
  | To_process_video video_base_name base_dir, Ffmpeg_does ffmpeg =>
      match process_video video_base_name base_dir ffmpeg fs with
      | (Ret _, fs) => Some (Ret None, fs)
      | (Raise e, fs) => Some (Raise e, fs)
      end
  | To_upload_to_s3 final_video_path final_s3_uri region, S3_does s3 =>
      Some (Ret (upload_to_s3 final_video_path final_s3_uri region s3 fs), fs)
  | _, _ => None
  end.

(** A background task: added by a request and not yet started, or a
    coroutine at a suspension point (or at its end). *)
Inductive task : Type :=
  | Scheduled (kw : Kwargs.t)
  | Started (c : coro).

(** The server between two events: the store, the files, and the
    background task of every job, by job id. *)
Record server : Type := mkServer {
  store : Store;
  fs : files;
  tasks : gmap string task
}.

Definition boot : server := mkServer empty_store ∅ ∅.

(** The events of the event loop.  Requests carry what the environment
    chooses for them: the values of [uuid4()] and the refusals of the
    operating system. *)
Inductive event_loop : Type :=
  | POST_keyframes_upload (product_name : string) (start_frame : UploadFile.t)
      (end_frame : option UploadFile.t) (uuid1 uuid2 : string)
  | POST_videos_generate (request : VideoGenerationRequest.t) (uuid : string)
  | DELETE_videos (video_id : string) (refuses : string → option string)
  | Task_starts (job_id : string)
  | Task_resumes (job_id : string) (o : oracle).

Definition add_tasks (kws : list Kwargs.t) (ts : gmap string task)
  : gmap string task :=
  foldr (λ kw ts, <[Kwargs.job_id kw := Scheduled kw]> ts) ts kws.

(** One event.  [None] when the event cannot happen in this state: a
    task that is not there or not waiting, an oracle that does not answer
    the awaited call, or a [uuid4()] value already in use as a job id. *)
Definition step (ev : event_loop) (s : server) : option server :=
  match ev with
  | POST_keyframes_upload product_name start_frame end_frame uuid1 uuid2 =>
      let '(_, σ, fs) :=
        upload_keyframes product_name start_frame end_frame uuid1 uuid2
          (store s) (fs s) in
      Some (mkServer σ fs (tasks s))
  | POST_videos_generate request uuid =>
      if bool_decide (uuid ∈ dom (jobs_db (store s))) then None
      else
        let '(_, σ, background_tasks) := generate_video request uuid (store s) in
        Some (mkServer σ (fs s) (add_tasks background_tasks (tasks s)))
  | DELETE_videos video_id refuses =>
      let '(_, σ, fs) := delete_video video_id refuses (store s) (fs s) in
      Some (mkServer σ fs (tasks s))
  | Task_starts job_id =>
      match tasks s !! job_id with
      | Some (Scheduled kw) =>
          let '(σ, c) := process_video_generation kw (store s) in
          Some (mkServer σ (fs s) (<[job_id := Started c]> (tasks s)))
      | _ => None
      end
  | Task_resumes job_id o =>
      match tasks s !! job_id with
      | Some (Started (Await c k)) =>
          match to_thread c o (fs s) with
          | Some (r, fs) =>
              let '(σ, c) := k r (store s) in
              Some (mkServer σ fs (<[job_id := Started c]> (tasks s)))
          | None => None
          end
      | _ => None
      end
  end.

(** A sequence of events from a state, with every state passed through,
    the first one included. *)
Fixpoint history (evs : list event_loop) (s : server) : option (list server) :=
  match evs with
  | [] => Some [s]
  | ev :: evs =>
      match step ev s with
      | Some s' => cons s <$> history evs s'
      | None => None
      end
  end.

Definition exec (evs : list event_loop) (s : server) : option server :=
  foldl (λ o ev, o ≫= step ev) (Some s) evs.

(** The state a run ends in (the initial one if the run cannot happen),
    and whether the run can happen. *)
Definition after (evs : list event_loop) (s : server) : server :=
  default s (exec evs s).

Definition happens (evs : list event_loop) (s : server) : bool :=
  match exec evs s with Some _ => true | None => false end.

(** The status and progress recorded for a job. *)
Definition recorded (job_id : string) (σ : Store) : option (JobStatus * Z) :=
  (λ j, (Job.status j, Job.progress j)) <$> jobs_db σ !! job_id.

(** What a client polling [GET /api/jobs/{job_id}] sees of a job. *)
Definition observe (job_id : string) (s : server)
  : option (JobStatus * Z) :=
  recorded job_id (store s).

(** The successive distinct observations of a job along a history. *)
Fixpoint changes {A} `{EqDecision A} (xs : list A) : list A :=
  match xs with
  | [] => []
  | x :: xs =>
      match xs with
      | y :: _ => if decide (x = y) then changes xs else x :: changes xs
      | [] => [x]
      end
  end.

Definition job_history (job_id : string) (evs : list event_loop) (s : server)
  : option (list (JobStatus * Z)) :=
  (λ ss, changes (omap (observe job_id) ss)) <$> history evs s.

(** ** Notions used to state the properties *)

(** The record [update_job] writes over an existing one. *)
Definition updated (status : JobStatus) (progress : Z) (message : string)
    (error : option string) (now : timestamp) (j : Job.t) : Job.t :=
  Job.mk (Job.job_id j) (Job.product_name j) status progress message
    (Job.created_at j) now (Job.video_url j)
    (if truthy error then error else Job.error j).


(** A reply that ends the monitoring loop: a status of [Completed] or
    [Failed], or a query that raises. *)
Definition ends_loop (r : Bedrock.reply) : bool :=
  match Bedrock.answer r with
  | Fails _ => true
  | Answers a =>
      String.eqb (Bedrock.status a) "Completed"
      || String.eqb (Bedrock.status a) "Failed"
  end.

(** The replies the loop gets to see: all up to the first that ends it. *)
Fixpoint queried (replies : list Bedrock.reply) : list Bedrock.reply :=
  match replies with
  | [] => []
  | r :: replies => if ends_loop r then [r] else r :: queried replies
  end.

(** The statuses carried by the replies that answered. *)
Definition statuses (replies : list Bedrock.reply) : list string :=
  omap (λ r, match Bedrock.answer r with
             | Answers a => Some (Bedrock.status a)
             | Fails _ => None
             end) replies.

(** The statuses that differ from the one seen just before, [last] being
    the one seen before the first. *)
Fixpoint novel (last : option string) (ss : list string) : list string :=
  match ss with
  | [] => []
  | s :: ss =>
      if status_changed s last then s :: novel (Some s) ss
      else novel (Some s) ss
  end.

(** The statuses reported by the loop, in order. *)
Definition notified (tr : list event) : list string :=
  omap (λ e, match e with Print_status _ s => Some s | _ => None end) tr.


(** What the loop prints about the status just queried. *)
Definition printed (last : option string) (r : Bedrock.reply) (s : string)
  : list event :=
  if status_changed s last then [Print_status (Bedrock.elapsed r) s] else [].

(** A reply that leaves the loop running. *)
Definition keeps_polling (r : Bedrock.reply) : Prop := ends_loop r = false.

(** Sample replies. *)
Definition reply_in_progress (elapsed : Z) : Bedrock.reply :=
  Bedrock.mk_reply (Answers (Bedrock.mk_response "InProgress" None None))
    elapsed.

Definition reply_completed (elapsed : Z) (output_uri : string) : Bedrock.reply :=
  Bedrock.mk_reply
    (Answers (Bedrock.mk_response "Completed" (Some output_uri) None)) elapsed.


(** A call of [update_job], as its arguments. *)
Module Update.
Record t : Type := mk {
  job_id : string;
  status : JobStatus;
  progress : Z;
  message : string;
  error : option string
}.
End Update.

Definition apply_update (σ : Store) (u : Update.t) : Store :=
  update_job (Update.job_id u) (Update.status u) (Update.progress u)
    (Update.message u) (Update.error u) σ.

(** Successive calls of [update_job]. *)
Definition apply_updates (us : list Update.t) (σ : Store) : Store :=
  foldl apply_update σ us.

(** The detail of the error [generate_video] raises for a product without
    keyframes, given the text that lists the available products. *)
Definition no_keyframes_detail (product_name available_list : string) : string :=
  "No keyframes found for product: " +:+ product_name +:+ ". "
  +:+ "Please upload keyframes with this product name first. "
  +:+ "Available products: " +:+ available_list.

(** A store with one product registered, and a request for another. *)
Definition store_with_watch : Store :=
  mkStore ∅ ∅
    {["watch" := Keyframes.mk (Some "/app/data/keyframes/k1.png") None 0]}
    None 1.

Definition request_for (product_name : string) : VideoGenerationRequest.t :=
  VideoGenerationRequest.mk product_name "slow rotation" "my-bucket"
    VideoSettings.default.

Definition server_with_watch : server := mkServer store_with_watch ∅ ∅.

(** The operating system lets every file go. *)
Definition never_refuses : string → option string := λ _, None.

(** *** The invariant of the server *)

(** A job between creation and the end of its pipeline: at a given status
    and progress, with neither result nor error recorded. *)
Definition at_stage (status : JobStatus) (progress : Z) (j : Job.t) : Prop :=
  Job.status j = status ∧ Job.progress j = progress
  ∧ Job.video_url j = None ∧ Job.error j = None.

(** How the background task of a job and the job's record go together:
    the point the coroutine has come to tells the status and progress. *)
Inductive task_matches (job_id : string) : task → Job.t → Prop :=
  | is_scheduled kw j :
      Kwargs.job_id kw = job_id → at_stage PENDING 0 j →
      task_matches job_id (Scheduled kw) j
  | is_generating kw c j :
      Kwargs.job_id kw = job_id → at_stage GENERATING 10 j →
      task_matches job_id (Started (Await c (after_generate kw))) j
  | is_downloading kw output_path video_base_name c j :
      Kwargs.job_id kw = job_id → at_stage DOWNLOADING 50 j →
      task_matches job_id
        (Started (Await c (after_download kw output_path video_base_name))) j
  | is_processing kw output_path video_base_name c j :
      Kwargs.job_id kw = job_id → at_stage PROCESSING 70 j →
      task_matches job_id
        (Started (Await c (after_process kw output_path video_base_name))) j
  | is_uploading kw output_path final_video_path c j :
      Kwargs.job_id kw = job_id → at_stage PROCESSING 90 j →
      task_matches job_id
        (Started (Await c (after_upload kw output_path final_video_path))) j
  | is_completed j :
      Job.status j = COMPLETED → Job.progress j = 100 →
      Job.video_url j = Some ("/api/videos/download/" +:+ job_id) →
      Job.error j = None →
      task_matches job_id (Started Finished) j
  | is_failed j :
      Job.status j = FAILED → Job.progress j = 0 →
      Job.video_url j = None → truthy (Job.error j) = true →
      task_matches job_id (Started Finished) j
  | is_escaped e j :
      is_Exception e = false →
      Job.status j ≠ COMPLETED → Job.status j ≠ FAILED →
      Job.video_url j = None → Job.error j = None →
      task_matches job_id (Started (Propagated e)) j.

(** Every job has its task and every task its job, matching; and every
    video record sits under its own id, which is the id of a completed
    job. *)
Definition consistent (s : server) : Prop :=
  (∀ job_id,
     match jobs_db (store s) !! job_id, tasks s !! job_id with
     | Some j, Some t => task_matches job_id t j
     | None, None => True
     | _, _ => False
     end)
  ∧ (∀ video_id v,
       videos_db (store s) !! video_id = Some v →
       Video.video_id v = video_id
       ∧ ∃ j, jobs_db (store s) !! video_id = Some j
              ∧ Job.status j = COMPLETED).

(** What an [asyncio.to_thread] call can hand back: if it raises an
    [Exception], the exception has a text. *)
Definition outcome_ok (r : outcome (option string)) : Prop :=
  ∀ e, r = Raise e → is_Exception e = true → str e ≠ "".

(** What one piece of the pipeline of [job_id] does to the store: only
    the job's own record and video record change; the record moves to
    what the rest of the coroutine says; progress does not go down unless
    the job fails; a video record is there iff the job completed. *)
Definition segment_post (job_id : string) (j : Job.t) (σ : Store)
    (res : Store * coro) : Prop :=
  (∀ other, other ≠ job_id → jobs_db res.1 !! other = jobs_db σ !! other)
  ∧ (∀ other, other ≠ job_id → videos_db res.1 !! other = videos_db σ !! other)
  ∧ keyframes_db res.1 = keyframes_db σ
  ∧ ∃ j', jobs_db res.1 !! job_id = Some j'
          ∧ task_matches job_id (Started res.2) j'
          ∧ (Job.status j' ≠ FAILED → (Job.progress j ≤ Job.progress j')%Z)
          ∧ (Job.status j' = COMPLETED →
             ∃ v, videos_db res.1 !! job_id = Some v ∧ Video.video_id v = job_id)
          ∧ (Job.status j' ≠ COMPLETED →
             videos_db res.1 !! job_id = videos_db σ !! job_id).

(** The event deletes the video of this id. *)
Definition deletes (video_id : string) (ev : event_loop) : bool :=
  match ev with
  | DELETE_videos v _ => bool_decide (v = video_id)
  | _ => false
  end.

(** What one event does, as far as the properties below need it: the
    invariant is kept; jobs stay, finished ones as they are, and progress
    does not go down unless the job fails; video records stay unless the
    event deletes them; a job that turns COMPLETED gets its video record. *)
Definition step_post (ev : event_loop) (s s' : server) : Prop :=
  consistent s'
  ∧ (∀ job_id j,
       jobs_db (store s) !! job_id = Some j →
       ∃ j', jobs_db (store s') !! job_id = Some j'
             ∧ (Job.status j' ≠ FAILED → (Job.progress j ≤ Job.progress j')%Z)
             ∧ (Job.status j = COMPLETED ∨ Job.status j = FAILED → j' = j))
  ∧ (∀ video_id,
       deletes video_id ev = false →
       is_Some (videos_db (store s) !! video_id) →
       is_Some (videos_db (store s') !! video_id))
  ∧ (∀ job_id j',
       jobs_db (store s') !! job_id = Some j' → Job.status j' = COMPLETED →
       (∃ j, jobs_db (store s) !! job_id = Some j ∧ Job.status j = COMPLETED)
       ∨ is_Some (videos_db (store s') !! job_id)).

(** *** Sample runs *)

Definition demo_job : string := "3f2b8c1e-77aa-4d0e-9c55-0123456789ab".

Definition demo_upload : event_loop :=
  POST_keyframes_upload "watch" (UploadFile.mk "image/png" "start.png") None
    "kf-1" "kf-2".

Definition demo_bedrock : Bedrock.t :=
  Bedrock.mk (Answers "arn:aws:bedrock:1")
    [reply_in_progress 0; reply_in_progress 15;
     reply_completed 30 "s3://my-bucket/product-videos/watch/out/"].

(** Upload of the keyframes, the request, and the start of its task. *)
Definition demo_start : list event_loop :=
  [demo_upload; POST_videos_generate (request_for "watch") demo_job;
   Task_starts demo_job].

(** The four calls of the pipeline, each with what the world does. *)
Definition demo_calls (s3_down : S3.transfer) (ffmpeg : Ffmpeg.t)
    (s3_up : S3.transfer) : list event_loop :=
  [Task_resumes demo_job (Bedrock_does demo_bedrock);
   Task_resumes demo_job (S3_does s3_down);
   Task_resumes demo_job (Ffmpeg_does ffmpeg);
   Task_resumes demo_job (S3_does s3_up)].

(** A run in which every step goes through. *)
Definition demo_run : list event_loop :=
  demo_start ++ demo_calls None Ffmpeg.ok None.

(** The same, followed by the deletion of the video. *)
Definition demo_run_then_delete : list event_loop :=
  demo_run ++ [DELETE_videos demo_job never_refuses].

(** Runs in which one step fails: the first ffmpeg run, the download,
    the upload. *)
Definition ffmpeg_fails : Ffmpeg.t :=
  Ffmpeg.mk (Some "Invalid data found when processing input") None None None.

Definition run_ffmpeg_fails : list event_loop :=
  demo_start
  ++ [Task_resumes demo_job (Bedrock_does demo_bedrock);
      Task_resumes demo_job (S3_does None);
      Task_resumes demo_job (Ffmpeg_does ffmpeg_fails)].

Definition run_download_fails : list event_loop :=
  demo_start
  ++ [Task_resumes demo_job (Bedrock_does demo_bedrock);
      Task_resumes demo_job (S3_does (Some "An error occurred (403)"));
      Task_resumes demo_job (Ffmpeg_does Ffmpeg.ok)].

Definition run_upload_fails : list event_loop :=
  demo_start
  ++ demo_calls None Ffmpeg.ok (Some "An error occurred (AccessDenied)").

(** ** Further notions: the stages of the pipeline *)

(** The database file holds the three tables as they are in memory; before
    the first write there is no file and the tables are empty. *)
Definition in_sync (σ : Store) : Prop :=
  match db_file σ with
  | Some snapshot =>
      Snapshot.jobs snapshot = jobs_db σ
      ∧ Snapshot.videos snapshot = videos_db σ
      ∧ Snapshot.keyframes snapshot = keyframes_db σ
  | None => jobs_db σ = ∅ ∧ videos_db σ = ∅ ∧ keyframes_db σ = ∅
  end.

(** The names the pipeline derives from its arguments (lines 236-238 and
    248 of api_server.py). *)
Definition video_base_name_of (kw : Kwargs.t) : string :=
  Kwargs.product_name kw +:+ "_" +:+ String.substring 0 8 (Kwargs.job_id kw).

Definition output_path_of (kw : Kwargs.t) : string :=
  path_join VIDEOS_DIR (video_base_name_of kw +:+ ".mp4").

Definition final_video_path_of (kw : Kwargs.t) : string :=
  path_join VIDEOS_DIR (video_base_name_of kw +:+ "_final.mp4").

(** The four suspension points of [process_video_generation]: the call
    awaited, the rest of the coroutine, and the status and progress the
    job shows meanwhile. *)
Inductive awaits (kw : Kwargs.t)
  : call → (outcome (option string) → Store → Store * coro)
    → JobStatus → Z → Prop :=
  | awaits_generate :
      awaits kw
        (To_generate_video_with_keyframes (Kwargs.product_name kw)
           (Kwargs.prompt kw) (Kwargs.s3_bucket kw)
           (Kwargs.start_frame_path kw) (Kwargs.end_frame_path kw)
           (VideoSettings.aspect_ratio (Kwargs.settings kw))
           (VideoSettings.duration (Kwargs.settings kw))
           (VideoSettings.resolution (Kwargs.settings kw))
           (VideoSettings.loop (Kwargs.settings kw))
           (VideoSettings.region (Kwargs.settings kw)))
        (after_generate kw) GENERATING 10
  | awaits_download s3_uri :
      awaits kw (To_download_from_s3 s3_uri (output_path_of kw))
        (after_download kw (output_path_of kw) (video_base_name_of kw))
        DOWNLOADING 50
  | awaits_process :
      awaits kw (To_process_video (video_base_name_of kw) VIDEOS_DIR)
        (after_process kw (output_path_of kw) (video_base_name_of kw))
        PROCESSING 70
  | awaits_upload final_s3_uri :
      awaits kw
        (To_upload_to_s3 (final_video_path_of kw) final_s3_uri
           (VideoSettings.region (Kwargs.settings kw)))
        (after_upload kw (output_path_of kw) (final_video_path_of kw))
        PROCESSING 90.

(** What the task of a job tells about the status and progress on
    record. *)
Definition task_stage (job_id : string) (σ : Store) (t : task) : Prop :=
  match t with
  | Scheduled kw =>
      Kwargs.job_id kw = job_id ∧ recorded job_id σ = Some (PENDING, 0)
  | Started (Await c k) =>
      ∃ kw status progress,
        Kwargs.job_id kw = job_id ∧ awaits kw c k status progress
        ∧ recorded job_id σ = Some (status, progress)
  | Started Finished =>
      recorded job_id σ = Some (COMPLETED, 100)
      ∨ recorded job_id σ = Some (FAILED, 0)
  | Started (Propagated e) =>
      e = SystemExit 1 ∧ recorded job_id σ = Some (PROCESSING, 70)
  end.

(** Every task is at the stage its job shows, and every job has a task. *)
Definition staged (s : server) : Prop :=
  (∀ job_id t, tasks s !! job_id = Some t → task_stage job_id (store s) t)
  ∧ (∀ job_id, is_Some (jobs_db (store s) !! job_id) →
               is_Some (tasks s !! job_id)).

(** The moves of the (status, progress) pair the code makes. *)
Definition moves : list ((JobStatus * Z) * (JobStatus * Z)) :=
  [((PENDING, 0), (GENERATING, 10));
   ((GENERATING, 10), (DOWNLOADING, 50));
   ((GENERATING, 10), (FAILED, 0));
   ((DOWNLOADING, 50), (PROCESSING, 70));
   ((PROCESSING, 70), (PROCESSING, 90));
   ((PROCESSING, 70), (FAILED, 0));
   ((PROCESSING, 90), (COMPLETED, 100))].

(** The (status, progress) pairs the code records. *)
Definition recordable : list (JobStatus * Z) :=
  [(PENDING, 0); (GENERATING, 10); (DOWNLOADING, 50); (PROCESSING, 70);
   (PROCESSING, 90); (COMPLETED, 100); (FAILED, 0)].

(** The job whose task an event runs, if it runs one. *)
Definition task_of (ev : event_loop) : option string :=
  match ev with
  | Task_starts job_id | Task_resumes job_id _ => Some job_id
  | _ => None
  end.

(** Of the records of jobs and videos only those of [job_id] may differ
    between the two stores, and the keyframes are the same. *)
Definition touches_only (job_id : string) (σ σ' : Store) : Prop :=
  (∀ other, other ≠ job_id → jobs_db σ' !! other = jobs_db σ !! other)
  ∧ (∀ other, other ≠ job_id → videos_db σ' !! other = videos_db σ !! other)
  ∧ keyframes_db σ' = keyframes_db σ.

(** What one event does to the stages: the invariant is kept; the
    database file stays in step with the tables; a job on record stays or
    makes one of the moves; a job new on record is PENDING at 0; and an
    event that runs the task of a job touches the records of that job
    only. *)
Definition stage_post (ev : event_loop) (s s' : server) : Prop :=
  staged s'
  ∧ (in_sync (store s) → in_sync (store s'))
  ∧ (∀ job_id a,
       recorded job_id (store s) = Some a →
       ∃ b, recorded job_id (store s') = Some b ∧ (b = a ∨ (a, b) ∈ moves))
  ∧ (∀ job_id b,
       recorded job_id (store s) = None →
       recorded job_id (store s') = Some b → b = (PENDING, 0))
  ∧ (∀ job_id,
       task_of ev = Some job_id → touches_only job_id (store s) (store s')).

(** The sample run up to the first call, and that call returning. *)
Definition demo_generated : event_loop :=
  Task_resumes demo_job (Bedrock_does demo_bedrock).

(** ** api_server.py: the remaining read endpoints *)

(** A [FileResponse], as far as the handlers set it. *)
Module FileResponse.
Record t : Type := mk {
  path : string;
  media_type : string;
  filename : option string
}.
End FileResponse.

(** [GET /api/videos/download/{video_id}?original=...]. *)
Definition download_final_video (video_id : string) (original : bool)
    (σ : Store) (fs : files) : outcome FileResponse.t :=
  match videos_db σ !! video_id with
  | None => Raise (HTTPException 404 "Video not found")
  | Some video_info =>
      let video_path :=
        if original then Video.original_video_path video_info
        else Video.final_video_path video_info in
      if negb (bool_decide (video_path ∈ fs)) then
        Raise (HTTPException 404 "Video file not found")
      else
        let product_name := Video.product_name video_info in
        let download_filename :=
          if negb original then product_name +:+ "_final.mp4"
          else product_name +:+ ".mp4" in
        Ret (FileResponse.mk video_path "video/mp4" (Some download_filename))
  end.

(** The last component of a path: the text after the last slash. *)
Fixpoint path_name (p : string) : string :=
  match p with
  | EmptyString => EmptyString
  | String c rest =>
      if bool_decide ("/"%char ∈ list_ascii_of_string rest) then path_name rest
      else if Ascii.eqb c "/"%char then rest
      else p
  end.

(** [Path(p).suffix[1:]]: the text after the last dot of the last
    component, when that dot is neither its first nor its last
    character; empty otherwise. *)
Definition path_suffix_tail (p : string) : string :=
  let name := path_name p in
  match after_last_dot name with
  | Some ext =>
      if String.eqb ext "" then ""
      else if (String.length name =? S (String.length ext))%nat then ""
      else ext
  | None => ""
  end.

(** [GET /api/keyframes/{product_name}/{frame_type}]. *)
Definition get_keyframe (product_name frame_type : string) (σ : Store)
    (fs : files) : outcome FileResponse.t :=
  if negb (bool_decide (frame_type ∈ ["start"; "end"])) then
    Raise (HTTPException 400 "Invalid frame type. Use 'start' or 'end'")
  else
    match keyframes_db σ !! product_name with
    | None =>
        Raise (HTTPException 404
                 ("No keyframes found for product: " +:+ product_name))
    | Some keyframe_data =>
        let keyframe_path_str :=
          if String.eqb frame_type "start"
          then Keyframes.start_frame keyframe_data
          else Keyframes.end_frame keyframe_data in
        if negb (truthy keyframe_path_str) then
          Raise (HTTPException 404
                   ("No " +:+ frame_type +:+ " frame found for product: "
                    +:+ product_name))
        else
          let keyframe_path := default "" keyframe_path_str in
          if negb (bool_decide (keyframe_path ∈ fs)) then
            Raise (HTTPException 404
                     ("Keyframe file not found: " +:+ keyframe_path))
          else
            Ret (FileResponse.mk keyframe_path
                   ("image/" +:+ path_suffix_tail keyframe_path) None)
    end.

(** The two content types and names of the sample uploads. *)
Definition png_file : UploadFile.t := UploadFile.mk "image/png" "start.png".
Definition gif_file : UploadFile.t := UploadFile.mk "image/gif" "anim.gif".

(** Whether [upload_keyframes] accepts the content types. *)
Definition types_allowed (start_frame : UploadFile.t)
    (end_frame : option UploadFile.t) : Prop :=
  UploadFile.content_type start_frame ∈ allowed_types
  ∧ ∀ f, end_frame = Some f → UploadFile.content_type f ∈ allowed_types.

(** The paths [upload_keyframes] stores a start and an end frame under. *)
Definition keyframe_path (uuid : string) (f : UploadFile.t) : string :=
  path_join KEYFRAMES_DIR
    (uuid +:+ "." +:+ default "jpg" (after_last_dot (UploadFile.filename f))).

(** The files [process_video] works with. *)
Definition input_file (video_name base_dir : string) : string :=
  path_join base_dir (video_name +:+ ".mp4").
Definition reversed_file (video_name base_dir : string) : string :=
  path_join base_dir (video_name +:+ "_reversed.mp4").
Definition combined_file (video_name base_dir : string) : string :=
  path_join base_dir (video_name +:+ "_combined.mp4").
Definition final_file (video_name base_dir : string) : string :=
  path_join base_dir (video_name +:+ "_final.mp4").

(** A path with a slash in it. *)
Definition has_slash (p : string) : bool :=
  bool_decide ("/"%char ∈ list_ascii_of_string p).

(** The three events that take a job from its download to its end, with
    a download and a processing that go through. *)
Definition finishing_events (job_id : string) (s3_up : S3.transfer)
  : list event_loop :=
  [Task_resumes job_id (S3_does None);
   Task_resumes job_id (Ffmpeg_does Ffmpeg.ok);
   Task_resumes job_id (S3_does s3_up)].

(** The loop's trace holds a status query. *)
Definition queries (tr : list event) : list string :=
  omap (λ e, match e with Query arn => Some arn | _ => None end) tr.

(** ** download_from_s3.py: listing the videos of a bucket *)

(** [s.endswith(suffix)]. *)
Fixpoint endswith (s suffix : string) : bool :=
  String.eqb s suffix
  || match s with
     | EmptyString => false
     | String _ rest => endswith rest suffix
     end.

(** An entry of the [Contents] of a [list_objects_v2] page; the time of
    the last modification as a number. *)
Module S3Object.
Record t : Type := mk {
  Key : string;
  Size : Z;
  LastModified : Z
}.
End S3Object.

(** An entry of the list [list_videos_in_bucket] returns. *)
Module VideoEntry.
Record t : Type := mk {
  uri : string;
  key : string;
  size : Z;
  modified : Z
}.
End VideoEntry.

(** The body of the loop over pages: a page without [Contents] is
    skipped, and of the others the keys ending in [.mp4] are kept. *)
Definition page_videos (s3_bucket : string)
    (page : option (list S3Object.t)) : list VideoEntry.t :=
  match page with
  | None => []
  | Some contents =>
      omap (λ obj,
              let key := S3Object.Key obj in
              if endswith key ".mp4" then
                Some (VideoEntry.mk ("s3://" +:+ s3_bucket +:+ "/" +:+ key) key
                        (S3Object.Size obj) (S3Object.LastModified obj))
              else None) contents
  end.

(** [videos.sort(key=lambda x: x["modified"], reverse=True)]: a stable
    sort, newest first; entries modified at the same time keep their
    order. *)
Fixpoint insert_newest (v : VideoEntry.t) (vs : list VideoEntry.t)
  : list VideoEntry.t :=
  match vs with
  | [] => [v]
  | w :: ws =>
      if (VideoEntry.modified w <=? VideoEntry.modified v)%Z then v :: w :: ws
      else w :: insert_newest v ws
  end.

Definition sort_newest_first (vs : list VideoEntry.t) : list VideoEntry.t :=
  foldr insert_newest [] vs.

(** [list_videos_in_bucket(s3_bucket, prefix, region)].  The pages are
    what the paginator yields for the bucket and prefix; if boto3 raises
    at any point the function returns the empty list. *)
Definition list_videos_in_bucket (s3_bucket prefix : string)
    (pages : boto (list (option (list S3Object.t)))) : list VideoEntry.t :=
  match pages with
  | Fails _ => []
  | Answers pages =>
      let videos := mjoin (page_videos s3_bucket <$> pages) in
      sort_newest_first videos
  end.

(** Newest first. *)
Definition newer_or_same (v w : VideoEntry.t) : Prop :=
  (VideoEntry.modified w ≤ VideoEntry.modified v)%Z.

(** ** batch_generate_product_videos.py *)

Definition KEYFRAME_DIRECTORY : string := "keyframes".

(** An entry of the [keyframe_based] list of the configuration file: the
    keys the code reads, each present or not. *)
Module Config.
Record t : Type := mk {
  product_name : option string;
  prompt : option string;
  end_frame : option string;
  aspect_ratio : option string;
  duration : option string;
  resolution : option string;
  loop : option bool
}.
End Config.

(** [os.path.join(a, b)] of posixpath: a second component that starts
    with a slash replaces the first. *)
Definition os_path_join (a b : string) : string :=
  if String.prefix "/" b then b
  else if String.eqb a "" || endswith a "/" then a +:+ b
  else a +:+ "/" +:+ b.

(** The two keyframe files the batch looks for, by product name. *)
Definition batch_start_frame (product_name : string) : string :=
  os_path_join KEYFRAME_DIRECTORY (product_name +:+ "_start_frame.jpg").

Definition batch_end_frame (product_name : string) : string :=
  os_path_join KEYFRAME_DIRECTORY (product_name +:+ "_end_frame.jpg").

(** [validate_config(config)]: the pair [(is_valid, error_message)]. *)
Definition validate_config (config : Config.t) (fs : files)
  : bool * option string :=
  match Config.product_name config with
  | None => (false, Some "Missing required field: product_name")
  | Some product_name =>
      match Config.prompt config with
      | None => (false, Some "Missing required field: prompt")
      | Some _ =>
          let start_frame_path := batch_start_frame product_name in
          let end_frame_path := batch_end_frame product_name in
          if negb (bool_decide (start_frame_path ∈ fs)) then
            (false, Some ("Start frame not found: " +:+ start_frame_path))
          else if truthy (Config.end_frame config)
                  && negb (bool_decide (end_frame_path ∈ fs)) then
            (false, Some ("End frame not found: " +:+ end_frame_path))
          else (true, None)
      end
  end.

(** An entry of the results of the batch: the dictionary appended for a
    configuration that did not validate, or the one appended after the
    generation. *)
Inductive batch_result : Type :=
  | Rejected (product_name : string) (error : option string)
  | Generated (product_name : string) (output_uri : option string)
      (start_frame end_frame : string).

(** [result["product_name"]] and [result["success"]]; after a generation
    [success] is [output_uri is not None]. *)
Definition result_product (r : batch_result) : string :=
  match r with
  | Rejected product_name _ | Generated product_name _ _ _ => product_name
  end.

Definition result_success (r : batch_result) : bool :=
  match r with
  | Rejected _ _ => false
  | Generated _ output_uri _ _ => bool_decide (is_Some output_uri)
  end.

(** What the batch does besides collecting results. *)
Inductive batch_event : Type :=
  | Generation (position : nat) (trace : list event)
  | Waiting (seconds : Z).

(** The loop of [batch_generate_with_keyframes] (lines 104-181), from the
    configuration at position [i] (counted from 1) of [total].  The
    Bedrock service is given per position.  [results] is the list built so
    far.  A configuration without product name makes line 105 raise
    [KeyError]; nothing inside the [try] raises. *)
Fixpoint batch_loop (i total : nat) (configs : list Config.t)
    (s3_bucket region : string) (delay_between : Z)
    (bedrock : nat → Bedrock.t) (fs : files) (results : list batch_result)
  : list batch_event * run (outcome (list batch_result)) :=
  match configs with
  | [] => ([], Returned (Ret results))
  | config :: configs =>
      match Config.product_name config with
      | None => ([], Returned (Raise (KeyError "product_name")))
      | Some product_name =>
          match validate_config config fs with
          | (false, error_msg) =>
              batch_loop (S i) total configs s3_bucket region delay_between
                bedrock fs (results ++ [Rejected product_name error_msg])
          | (true, _) =>
              let start_frame_path := batch_start_frame product_name in
              let end_frame_path := batch_end_frame product_name in
              match
                generate_video_with_keyframes product_name
                  (default "" (Config.prompt config)) s3_bucket
                  start_frame_path (Some end_frame_path)
                  (default "16:9" (Config.aspect_ratio config))
                  (default "5s" (Config.duration config))
                  (default "720p" (Config.resolution config))
                  (default false (Config.loop config)) region (bedrock i) fs
              with
              | (trace, Polling) => ([Generation i trace], Polling)
              | (trace, Returned output_uri) =>
                  let results :=
                    results ++ [Generated product_name output_uri
                                  start_frame_path end_frame_path] in
                  let waiting :=
                    if (i <? total)%nat && (0 <? delay_between)%Z
                    then [Waiting delay_between] else [] in
                  let '(later, r) :=
                    batch_loop (S i) total configs s3_bucket region
                      delay_between bedrock fs results in
                  (Generation i trace :: waiting ++ later, r)
              end
          end
      end
  end.

(** [batch_generate_with_keyframes(configs, s3_bucket, region,
    delay_between)]. *)
Definition batch_generate_with_keyframes (configs : list Config.t)
    (s3_bucket region : string) (delay_between : Z)
    (bedrock : nat → Bedrock.t) (fs : files)
  : list batch_event * run (outcome (list batch_result)) :=
  batch_loop 1 (length configs) configs s3_bucket region delay_between
    bedrock fs [].

(** A configuration with product name and prompt only. *)
Definition plain_config (product_name prompt : string) : Config.t :=
  Config.mk (Some product_name) (Some prompt) None None None None None.

(** What the result at a position says about the configuration there:
    rejected with the validator's message, or generated with what the
    generation for that position returned. *)
Definition result_fits (position : nat) (config : Config.t)
    (s3_bucket region : string) (bedrock : nat → Bedrock.t) (fs : files)
    (r : batch_result) : Prop :=
  ∃ product_name,
    Config.product_name config = Some product_name
    ∧ match r with
      | Rejected name error =>
          name = product_name ∧ validate_config config fs = (false, error)
      | Generated name output_uri start_frame end_frame =>
          name = product_name
          ∧ validate_config config fs = (true, None)
          ∧ start_frame = batch_start_frame product_name
          ∧ end_frame = batch_end_frame product_name
          ∧ (generate_video_with_keyframes product_name
               (default "" (Config.prompt config)) s3_bucket
               start_frame (Some end_frame)
               (default "16:9" (Config.aspect_ratio config))
               (default "5s" (Config.duration config))
               (default "720p" (Config.resolution config))
               (default false (Config.loop config)) region
               (bedrock position) fs).2
            = Returned output_uri
      end.

(** The positions, counted from [i] as [enumerate(configs, i)] does, of
    the configurations the validator accepts. *)
Fixpoint accepted_positions (i : nat) (configs : list Config.t) (fs : files)
  : list nat :=
  match configs with
  | [] => []
  | config :: configs =>
      (if (validate_config config fs).1 then [i] else [])
      ++ accepted_positions (S i) configs fs
  end.

Definition generation_positions (tr : list batch_event) : list nat :=
  omap (λ e, match e with
             | Generation position _ => Some position
             | Waiting _ => None
             end) tr.

Definition waiting_times (tr : list batch_event) : list Z :=
  omap (λ e, match e with
             | Generation _ _ => None
             | Waiting seconds => Some seconds
             end) tr.

(** ** generate_video_with_keyframes.py, command line *)

Module Environ.

(** The variables [main] reads with [os.getenv]. *)
Record t : Type := mk {
  ASPECT_RATIO : option string;
  DURATION : option string;
  RESOLUTION : option string;
  LOOP : option string;
  AWS_REGION : option string
}.

End Environ.

Inductive main_output : Type :=
  | Usage
  | Generating (trace : list event)
  | To_download (output_uri product_name : string).

Module GenerateVideoCli.

Record arguments : Type := mkArguments {
  product_name : string;
  s3_bucket : string;
  start_frame : string;
  end_frame : option string;
  prompt : string
}.

(** Lines 219-257 of [main]: [None] when [len(sys.argv) < 5], where the
    usage is printed. *)
Definition main_arguments (argv : list string) : option arguments :=
  match argv with
  | _ :: product_name :: s3_bucket :: start_frame :: argv4 :: rest =>
      let end_frame := if negb (String.eqb argv4 "-") then Some argv4 else None in
      let prompt := match rest with argv5 :: _ => argv5 | [] => argv4 end in
      let prompt :=
        match end_frame, rest with
        | None, argv5 :: _ => argv5
        | None, [] => argv4
        | Some _, _ => prompt
        end in
      Some (mkArguments product_name s3_bucket start_frame end_frame prompt)
  | _ => None
  end.

Section main.

(** [str.lower]. *)
Variable lower : string → string.

(** [main()]: the exit code, [sys.exit(0)] when the generation returned a
    non-empty URI. *)
Definition main (argv : list string) (environ : Environ.t)
    (bedrock : Bedrock.t) (fs : files) : list main_output * run Z :=
  match main_arguments argv with
  | None => ([Usage], Returned 1)
  | Some a =>
      let aspect_ratio := default "16:9" (Environ.ASPECT_RATIO environ) in
      let duration := default "5s" (Environ.DURATION environ) in
      let resolution := default "720p" (Environ.RESOLUTION environ) in
      let loop :=
        String.eqb (lower (default "false" (Environ.LOOP environ))) "true" in
      let region := default "us-west-2" (Environ.AWS_REGION environ) in
      match
        generate_video_with_keyframes (product_name a) (prompt a)
          (s3_bucket a) (start_frame a) (end_frame a) aspect_ratio duration
          resolution loop region bedrock fs
      with
      | (trace, Polling) => ([Generating trace], Polling)
      | (trace, Returned output_uri) =>
          if truthy output_uri then
            ([Generating trace;
              To_download (default "" output_uri) (product_name a)],
             Returned 0)
          else ([Generating trace], Returned 1)
      end
  end.

End main.

End GenerateVideoCli.
(** * Properties *)

(** ** The store operations *)

Section store_facts.

Lemma truthy_true (o : option string) :
  truthy o = true ↔ ∃ s, o = Some s ∧ s ≠ "".
Proof.
  destruct o as [s|]; simpl.
  - rewrite negb_true_iff. split.
    + intros H. exists s. split; [done|]. intros ->. by rewrite String.eqb_refl in H.
    + intros (s' & [= <-] & Hne). by apply String.eqb_neq.
  - split; [done|]. by intros (? & ? & _).
Qed.

Lemma truthy_false (o : option string) :
  truthy o = false ↔ o = None ∨ o = Some "".
Proof.
  destruct o as [s|]; simpl.
  - rewrite negb_false_iff, String.eqb_eq. split; [intros ->; by right|by intros [|[= ->]]].
  - split; [by left|done].
Qed.

Lemma save_database_jobs σ : jobs_db (save_database σ) = jobs_db σ.
Proof. done. Qed.

Lemma save_database_videos σ : videos_db (save_database σ) = videos_db σ.
Proof. done. Qed.

Lemma save_database_keyframes σ :
  keyframes_db (save_database σ) = keyframes_db σ.
Proof. done. Qed.

Lemma update_job_jobs job_id status progress message error σ :
  jobs_db (update_job job_id status progress message error σ)
  = match jobs_db σ !! job_id with
    | Some j =>
        <[job_id := updated status progress message error (clock σ) j]>
          (jobs_db σ)
    | None => jobs_db σ
    end.
Proof. unfold update_job. by destruct (jobs_db σ !! job_id). Qed.

Lemma update_job_lookup job_id status progress message error σ j :
  jobs_db σ !! job_id = Some j →
  jobs_db (update_job job_id status progress message error σ) !! job_id
  = Some (updated status progress message error (clock σ) j).
Proof. intros H. rewrite update_job_jobs, H. apply lookup_insert_eq. Qed.

Lemma update_job_lookup_ne job_id status progress message error σ other :
  other ≠ job_id →
  jobs_db (update_job job_id status progress message error σ) !! other
  = jobs_db σ !! other.
Proof.
  intros H. rewrite update_job_jobs.
  destruct (jobs_db σ !! job_id); [by rewrite lookup_insert_ne|done].
Qed.

Lemma update_job_videos job_id status progress message error σ :
  videos_db (update_job job_id status progress message error σ) = videos_db σ.
Proof. unfold update_job. by destruct (jobs_db σ !! job_id). Qed.

Lemma update_job_keyframes job_id status progress message error σ :
  keyframes_db (update_job job_id status progress message error σ)
  = keyframes_db σ.
Proof. unfold update_job. by destruct (jobs_db σ !! job_id). Qed.

End store_facts.

(** ** The monitoring loop *)

Section monitor_facts.

Variable arn : string.

Lemma status_changed_same s : status_changed s (Some s) = false.
Proof. unfold status_changed. by rewrite bool_decide_eq_false; intros []. Qed.

(** The equations of the loop, one per way an iteration goes. *)
Lemma monitor_fails last r replies msg :
  Bedrock.answer r = Fails msg →
  monitor arn last (r :: replies)
  = ([Query arn; Print_error msg], Returned None).
Proof. intros H. cbn [monitor]. by rewrite H. Qed.

Lemma monitor_completed last r replies a :
  Bedrock.answer r = Answers a →
  Bedrock.status a = "Completed" →
  monitor arn last (r :: replies)
  = (Query arn :: printed last r "Completed"
       ++ [match Bedrock.s3Uri a with
           | Some output_uri => Print_success (Bedrock.elapsed r) output_uri
           | None => Print_error (str (KeyError "outputDataConfig"))
           end],
     Returned (Bedrock.s3Uri a)).
Proof.
  intros H Hs. cbn [monitor]. rewrite H, Hs. unfold printed.
  destruct (status_changed "Completed" last); simpl;
    by destruct (Bedrock.s3Uri a).
Qed.

Lemma monitor_failed last r replies a :
  Bedrock.answer r = Answers a →
  Bedrock.status a = "Failed" →
  monitor arn last (r :: replies)
  = (Query arn :: printed last r "Failed"
       ++ [Print_failed (default "Unknown error" (Bedrock.failureMessage a))],
     Returned None).
Proof.
  intros H Hs. cbn [monitor]. rewrite H, Hs. unfold printed.
  by destruct (status_changed "Failed" last).
Qed.

Lemma monitor_continues last r replies a :
  Bedrock.answer r = Answers a →
  ends_loop r = false →
  monitor arn last (r :: replies)
  = (Query arn :: printed last r (Bedrock.status a)
       ++ Sleep 15 :: (monitor arn (Some (Bedrock.status a)) replies).1,
     (monitor arn (Some (Bedrock.status a)) replies).2).
Proof.
  intros H. unfold ends_loop. rewrite H. intros [Hc Hf]%orb_false_elim.
  cbn [monitor]. rewrite H, Hc, Hf. unfold printed, status_changed.
  case_bool_decide as Hd.
  - by destruct (monitor arn (Some (Bedrock.status a)) replies).
  - rewrite <- Hd. by destruct (monitor arn (Some (Bedrock.status a)) replies).
Qed.

(** The ways an iteration goes are these four. *)
Lemma reply_cases (r : Bedrock.reply) :
  (∃ msg, Bedrock.answer r = Fails msg ∧ ends_loop r = true)
  ∨ (∃ a, Bedrock.answer r = Answers a ∧ Bedrock.status a = "Completed"
          ∧ ends_loop r = true)
  ∨ (∃ a, Bedrock.answer r = Answers a ∧ Bedrock.status a = "Failed"
          ∧ ends_loop r = true)
  ∨ (∃ a, Bedrock.answer r = Answers a ∧ ends_loop r = false).
Proof.
  unfold ends_loop. destruct (Bedrock.answer r) as [a|msg]; [|by left; eauto].
  destruct (String.eqb (Bedrock.status a) "Completed") eqn:Ec.
  { apply String.eqb_eq in Ec. right; left. eauto. }
  destruct (String.eqb (Bedrock.status a) "Failed") eqn:Ef.
  { apply String.eqb_eq in Ef. right; right; left. eauto. }
  right; right; right. eauto.
Qed.

Lemma notified_printed last r s :
  notified (printed last r s) = if status_changed s last then [s] else [].
Proof. unfold printed. by destruct (status_changed s last). Qed.

Lemma notified_app (tr1 tr2 : list event) :
  notified (tr1 ++ tr2) = notified tr1 ++ notified tr2.
Proof. apply omap_app. Qed.

(** The loop reports a status exactly when it differs from the last one
    seen. *)
Lemma monitor_notified last replies :
  notified (monitor arn last replies).1
  = novel last (statuses (queried replies)).
Proof.
  revert last. induction replies as [|r replies IH]; intros last; [done|].
  cbn [queried].
  destruct (reply_cases r)
    as [(msg & Ha & He)|[(a & Ha & Hs & He)|[(a & Ha & Hs & He)|(a & Ha & He)]]];
    rewrite He.
  - rewrite (monitor_fails _ _ _ _ Ha). unfold statuses. simpl. by rewrite Ha.
  - rewrite (monitor_completed _ _ _ _ Ha Hs). unfold statuses. simpl.
    rewrite Ha, Hs. change (Query arn :: ?l) with ([Query arn] ++ l).
    rewrite !notified_app, notified_printed.
    simpl. destruct (status_changed "Completed" last);
      by destruct (Bedrock.s3Uri a).
  - rewrite (monitor_failed _ _ _ _ Ha Hs). unfold statuses. simpl.
    rewrite Ha, Hs. change (Query arn :: ?l) with ([Query arn] ++ l).
    rewrite !notified_app, notified_printed.
    simpl. by destruct (status_changed "Failed" last).
  - rewrite (monitor_continues _ _ _ _ Ha He). unfold statuses. simpl.
    rewrite Ha. change (Query arn :: ?l) with ([Query arn] ++ l).
    change (Sleep 15 :: ?l) with ([Sleep 15] ++ l).
    rewrite !notified_app, notified_printed, IH. simpl.
    by destruct (status_changed (Bedrock.status a) last).
Qed.

(** The trace of the loop starts with a query. *)
Lemma monitor_head last replies e :
  (monitor arn last replies).1 !! 0%nat = Some e → e = Query arn.
Proof.
  destruct replies as [|r replies]; [done|].
  destruct (reply_cases r)
    as [(msg & Ha & He)|[(sr & Ha & Hs & He)|[(sr & Ha & Hs & He)|(sr & Ha & He)]]].
  - rewrite (monitor_fails _ _ _ _ Ha). by intros [= <-].
  - rewrite (monitor_completed _ _ _ _ Ha Hs). by intros [= <-].
  - rewrite (monitor_failed _ _ _ _ Ha Hs). by intros [= <-].
  - rewrite (monitor_continues _ _ _ _ Ha He). by intros [= <-].
Qed.

(** Every event of the loop's trace but the first: a query is directly
    preceded by the 15 second sleep. *)
Lemma monitor_sleeps last replies i a :
  (monitor arn last replies).1 !! S i = Some (Query a) →
  (monitor arn last replies).1 !! i = Some (Sleep 15).
Proof.
  revert last i. induction replies as [|r replies IH]; intros last i; [done|].
  destruct (reply_cases r)
    as [(msg & Ha & He)|[(sr & Ha & Hs & He)|[(sr & Ha & Hs & He)|(sr & Ha & He)]]].
  - rewrite (monitor_fails _ _ _ _ Ha). by destruct i as [|[|i]].
  - rewrite (monitor_completed _ _ _ _ Ha Hs). unfold printed.
    destruct (status_changed _ last), (Bedrock.s3Uri sr);
      by destruct i as [|[|[|i]]].
  - rewrite (monitor_failed _ _ _ _ Ha Hs). unfold printed.
    destruct (status_changed _ last); by destruct i as [|[|[|i]]].
  - rewrite (monitor_continues _ _ _ _ Ha He). unfold printed.
    specialize (IH (Some (Bedrock.status sr))).
    destruct (monitor arn (Some (Bedrock.status sr)) replies) as [later res].
    simpl in *.
    destruct (status_changed _ last); simpl.
    + destruct i as [|[|[|i]]]; try done. apply IH.
    + destruct i as [|[|i]]; try done. apply IH.
Qed.

Lemma novel_head last ss s :
  novel last ss !! 0%nat = Some s → Some s ≠ last.
Proof.
  revert last. induction ss as [|x ss IH]; intros last; [done|]. simpl.
  unfold status_changed at 1. case_bool_decide as Hd.
  - by intros [= <-].
  - subst last. apply IH.
Qed.

(** A list produced by [novel] never repeats a status in a row. *)
Lemma novel_adjacent last ss i s t :
  novel last ss !! i = Some s → novel last ss !! S i = Some t → s ≠ t.
Proof.
  revert last i. induction ss as [|x ss IH]; intros last i; [done|]. simpl.
  destruct (status_changed x last); [|apply IH].
  destruct i as [|i]; [|apply IH].
  intros [= <-] Ht%novel_head. congruence.
Qed.

(** A status line directly follows the query it reports on. *)
Lemma monitor_reports_query last replies i e s :
  (monitor arn last replies).1 !! S i = Some (Print_status e s) →
  (monitor arn last replies).1 !! i = Some (Query arn).
Proof.
  revert last i. induction replies as [|r replies IH]; intros last i; [done|].
  destruct (reply_cases r)
    as [(msg & Ha & He)|[(sr & Ha & Hs & He)|[(sr & Ha & Hs & He)|(sr & Ha & He)]]].
  - rewrite (monitor_fails _ _ _ _ Ha). by destruct i as [|[|i]].
  - rewrite (monitor_completed _ _ _ _ Ha Hs). unfold printed.
    destruct (status_changed _ last), (Bedrock.s3Uri sr);
      by destruct i as [|[|[|i]]].
  - rewrite (monitor_failed _ _ _ _ Ha Hs). unfold printed.
    destruct (status_changed _ last); by destruct i as [|[|[|i]]].
  - rewrite (monitor_continues _ _ _ _ Ha He). unfold printed.
    specialize (IH (Some (Bedrock.status sr))).
    pose proof (monitor_head (Some (Bedrock.status sr)) replies) as Hh.
    destruct (monitor arn (Some (Bedrock.status sr)) replies) as [later res].
    simpl in *.
    destruct (status_changed _ last); simpl.
    + destruct i as [|[|[|i]]]; try done.
      * destruct later as [|e' later]; [done|]. intros [= ->].
        by specialize (Hh _ eq_refl).
      * apply IH.
    + destruct i as [|[|i]]; try done.
      * destruct later as [|e' later]; [done|]. intros [= ->].
        by specialize (Hh _ eq_refl).
      * apply IH.
Qed.



End monitor_facts.

(** Once both keyframes are found and the invocation is accepted, the
    function is its monitoring loop, entered with no status seen. *)
Lemma generate_video_with_keyframes_monitors product_name prompt s3_bucket
    start_frame_path end_frame_path aspect_ratio duration resolution loop
    region bedrock (fs : gset string) arn :
  start_frame_path ∈ fs →
  (truthy end_frame_path = true → default "" end_frame_path ∈ fs) →
  Bedrock.start_async_invoke bedrock = Answers arn →
  generate_video_with_keyframes product_name prompt s3_bucket start_frame_path
    end_frame_path aspect_ratio duration resolution loop region bedrock fs
  = monitor arn None (Bedrock.get_async_invoke bedrock).
Proof.
  intros Hstart Hend Harn. unfold generate_video_with_keyframes.
  rewrite (bool_decide_eq_true_2 _ Hstart), Harn. simpl.
  destruct (truthy end_frame_path); [|done].
  by rewrite (bool_decide_eq_true_2 _ (Hend eq_refl)).
Qed.

(** C8. In every run of the polling loop the status line is printed exactly
    for the queried statuses that differ from the one seen just before
    (the first always); no status is reported twice in a row; a status line
    directly follows the query it reports; the trace starts with a query and
    every later query is directly preceded by the 15 second sleep. *)
Theorem status_reported_on_change_only (arn : string)
    (replies : list Bedrock.reply) :
  let tr := (monitor arn None replies).1 in
  notified tr = novel None (statuses (queried replies))
  ∧ (∀ i s t, notified tr !! i = Some s → notified tr !! S i = Some t → s ≠ t)
  ∧ (∀ i e s, tr !! S i = Some (Print_status e s) → tr !! i = Some (Query arn))
  ∧ (∀ e, tr !! 0%nat = Some e → e = Query arn)
  ∧ (∀ i a, tr !! S i = Some (Query a) → tr !! i = Some (Sleep 15)).
Proof.
  cbv zeta. split_and!.
  - apply monitor_notified.
  - rewrite monitor_notified. apply novel_adjacent.
  - apply monitor_reports_query.
  - apply monitor_head.
  - apply monitor_sleeps.
Qed.



(** ** The job store *)

(** C7. [update_job] on a job id that is not in [jobs_db] returns (it is a
    total function, nothing is raised) and leaves the whole store as it
    was: every job record, the other tables, the database file and the
    clock. *)
Theorem update_job_unknown_id (job_id : string) (status : JobStatus)
    (progress : Z) (message : string) (error : option string) (σ : Store) :
  jobs_db σ !! job_id = None →
  update_job job_id status progress message error σ = σ.
Proof. intros H. unfold update_job. by rewrite H. Qed.

Lemma update_job_unknown_id_witness :
  jobs_db store_with_watch !! "no-such-job" = None
  ∧ update_job "no-such-job" FAILED 0 "Error: boom" (Some "boom")
      store_with_watch
    = store_with_watch.
Proof.
  split; [reflexivity|]. by apply (update_job_unknown_id "no-such-job").
Defined.

Lemma apply_update_error σ (u : Update.t) job_id (j : Job.t) :
  jobs_db σ !! job_id = Some j → truthy (Job.error j) = true →
  ∃ j', jobs_db (apply_update σ u) !! job_id = Some j'
        ∧ truthy (Job.error j') = true.
Proof.
  intros Hj He. unfold apply_update.
  destruct (decide (job_id = Update.job_id u)) as [->|Hne].
  - rewrite (update_job_lookup _ _ _ _ _ _ _ Hj). eexists. split; [done|].
    simpl. by destruct (truthy (Update.error u)) eqn:E.
  - rewrite update_job_lookup_ne by done. eauto.
Qed.

Lemma apply_updates_error us σ job_id (j : Job.t) :
  jobs_db σ !! job_id = Some j → truthy (Job.error j) = true →
  ∃ j', jobs_db (apply_updates us σ) !! job_id = Some j'
        ∧ truthy (Job.error j') = true.
Proof.
  revert σ j. induction us as [|u us IH]; intros σ j Hj He; [by eauto|].
  destruct (apply_update_error σ u job_id j Hj He) as (j' & Hj' & He').
  exact (IH _ _ Hj' He').
Qed.

(** C10. On an existing job, [update_job] called with [error] equal to
    [None] or to the empty string keeps the job's [error] field; a
    non-empty [error] field stays non-empty through any further calls of
    [update_job], on any job ids; and the failure handler of the pipeline,
    entered with an exception whose text is empty, marks the job FAILED
    with progress 0 and leaves [error] as it was ([None] for a job that
    never failed). *)
Theorem update_job_keeps_error (job_id : string) (σ : Store) (j : Job.t) :
  jobs_db σ !! job_id = Some j →
  (∀ status progress message error,
     error = None ∨ error = Some "" →
     ∃ j', jobs_db (update_job job_id status progress message error σ)
             !! job_id = Some j'
           ∧ Job.error j' = Job.error j
           ∧ Job.status j' = status ∧ Job.progress j' = progress)
  ∧ (truthy (Job.error j) = true →
     ∀ us, ∃ j', jobs_db (apply_updates us σ) !! job_id = Some j'
                 ∧ truthy (Job.error j') = true)
  ∧ (∃ j', (on_exception job_id (Exception "") σ).2 = Finished
           ∧ jobs_db (on_exception job_id (Exception "") σ).1 !! job_id
             = Some j'
           ∧ Job.status j' = FAILED ∧ Job.progress j' = 0
           ∧ Job.error j' = Job.error j).
Proof.
  intros Hj. split_and!.
  - intros status progress message error He.
    rewrite (update_job_lookup _ _ _ _ _ _ _ Hj). eexists. split; [done|].
    simpl. apply truthy_false in He. by rewrite He.
  - intros He us. by apply (apply_updates_error us σ job_id j).
  - unfold on_exception. simpl.
    rewrite (update_job_lookup _ _ _ _ _ _ _ Hj). by eexists.
Qed.

Lemma update_job_keeps_error_witness :
  ∃ j, jobs_db (create_job "job-1" "watch" empty_store).2 !! "job-1" = Some j
       ∧ Job.error j = None
       ∧ ∃ j', jobs_db
                 (on_exception "job-1" (Exception "")
                    (create_job "job-1" "watch" empty_store).2).1 !! "job-1"
               = Some j'
               ∧ Job.status j' = FAILED ∧ Job.error j' = None.
Proof.
  eexists. split; [vm_compute; reflexivity|]. split; [reflexivity|].
  edestruct (update_job_keeps_error "job-1"
               (create_job "job-1" "watch" empty_store).2)
    as (_ & _ & j' & _ & Hj' & Hs & _ & He); [vm_compute; reflexivity|].
  exists j'. by rewrite He.
Defined.

(** ** The generate endpoint *)

Lemma insert_sorted_perm x xs : insert_sorted x xs ≡ₚ x :: xs.
Proof.
  induction xs as [|y ys IH]; [done|]. simpl.
  destruct (String.leb x y); [done|]. by rewrite IH, Permutation_swap.
Qed.

Lemma sorted_perm xs : sorted xs ≡ₚ xs.
Proof.
  induction xs as [|x xs IH]; [done|]. simpl.
  by rewrite insert_sorted_perm, IH.
Qed.

(** C3. A request for a product that is not in [keyframes_db] is answered
    at once with the HTTP 400 error "No keyframes found for product ...",
    whose text lists the registered products (all of them, sorted, or
    "none"); the store comes back unchanged, so no job record is created,
    and no background task is added; on the server the event changes
    nothing at all. *)
Theorem generate_video_unknown_product (request : VideoGenerationRequest.t)
    (uuid : string) (s : server) :
  keyframes_db (store s) !! VideoGenerationRequest.product_name request = None →
  ∃ available,
    generate_video request uuid (store s)
    = (Raise
         (HTTPException 400
            (no_keyframes_detail (VideoGenerationRequest.product_name request)
               (if bool_decide (keyframes_db (store s) = ∅) then "none"
                else join ", " available))),
       store s, [])
    ∧ (∀ p, p ∈ available ↔ is_Some (keyframes_db (store s) !! p))
    ∧ (∀ s', step (POST_videos_generate request uuid) s = Some s' → s' = s).
Proof.
  intros H. exists (sorted (elements (dom (keyframes_db (store s))))).
  split_and!.
  - unfold generate_video. by rewrite H.
  - intros p. by rewrite sorted_perm, elem_of_elements, elem_of_dom.
  - intros s'. simpl. case_bool_decide; [done|].
    unfold generate_video. rewrite H. intros [= <-]. by destruct s.
Qed.

Lemma generate_video_unknown_product_witness :
  keyframes_db (store server_with_watch) !! "lamp" = None
  ∧ ∃ available,
      generate_video (request_for "lamp") "job-1" (store server_with_watch)
      = (Raise
           (HTTPException 400
              (no_keyframes_detail "lamp"
                 (if bool_decide (keyframes_db (store server_with_watch) = ∅)
                  then "none" else join ", " available))),
         store server_with_watch, [])
      ∧ (∀ p, p ∈ available
              ↔ is_Some (keyframes_db (store server_with_watch) !! p))
      ∧ (∀ s', step (POST_videos_generate (request_for "lamp") "job-1")
                 server_with_watch = Some s' → s' = server_with_watch).
Proof.
  split; [reflexivity|].
  apply (generate_video_unknown_product (request_for "lamp") "job-1"
           server_with_watch).
  reflexivity.
Defined.

(** ** Deleting a video *)




(** ** The pipeline, piece by piece *)

Section pipeline_facts.

Lemma on_exception_post job_id e σ j :
  jobs_db σ !! job_id = Some j →
  Job.status j ≠ COMPLETED → Job.status j ≠ FAILED →
  Job.video_url j = None → Job.error j = None →
  (is_Exception e = true → str e ≠ "") →
  segment_post job_id j σ (on_exception job_id e σ).
Proof.
  intros Hj Hc Hf Hu He Hstr. unfold on_exception, segment_post.
  destruct (is_Exception e) eqn:Ee; simpl.
  - split_and!.
    + intros other Hne. by apply update_job_lookup_ne.
    + intros other _. by rewrite update_job_videos.
    + apply update_job_keyframes.
    + rewrite (update_job_lookup _ _ _ _ _ _ _ Hj). eexists.
      split; [done|]. split_and!; simpl; try done.
      * assert (Ht : truthy (Some (str e)) = true)
          by (apply truthy_true; eauto).
        apply is_failed; [done..|]. unfold updated. cbn [Job.error].
        by rewrite Ht.
      * by rewrite update_job_videos.
  - split_and!; try done. exists j. split_and!; try done; try lia.
    by apply is_escaped.
Qed.

Lemma at_stage_in_flight st p j :
  at_stage st p j → st ≠ COMPLETED → st ≠ FAILED →
  Job.status j ≠ COMPLETED ∧ Job.status j ≠ FAILED
  ∧ Job.video_url j = None ∧ Job.error j = None.
Proof. intros (-> & _ & ? & ?) ??. done. Qed.

(** A plain [update_job] of the pipeline followed by the next [await]. *)
Lemma update_job_post job_id st p message σ j c :
  jobs_db σ !! job_id = Some j →
  Job.video_url j = None → Job.error j = None →
  (Job.progress j ≤ p)%Z → st ≠ COMPLETED → st ≠ FAILED →
  (∀ j', at_stage st p j' → task_matches job_id (Started c) j') →
  segment_post job_id j σ (update_job job_id st p message None σ, c).
Proof.
  intros Hj Hu He Hp Hc Hf Hm. unfold segment_post. simpl. split_and!.
  - intros other Hne. by apply update_job_lookup_ne.
  - intros other _. by rewrite update_job_videos.
  - apply update_job_keyframes.
  - rewrite (update_job_lookup _ _ _ _ _ _ _ Hj). eexists.
    split; [done|]. split_and!; simpl; try done.
    + by apply Hm.
    + by rewrite update_job_videos.
Qed.

Lemma process_video_generation_post kw σ j :
  jobs_db σ !! Kwargs.job_id kw = Some j → at_stage PENDING 0 j →
  segment_post (Kwargs.job_id kw) j σ (process_video_generation kw σ).
Proof.
  intros Hj (Hs & Hp & Hu & He). unfold process_video_generation.
  apply update_job_post; try done; [lia|].
  intros j' Hj'. by apply is_generating.
Qed.

Lemma after_generate_post kw r σ j :
  jobs_db σ !! Kwargs.job_id kw = Some j → at_stage GENERATING 10 j →
  outcome_ok r →
  segment_post (Kwargs.job_id kw) j σ (after_generate kw r σ).
Proof.
  intros Hj Hst Hr.
  destruct (at_stage_in_flight _ _ _ Hst) as (Hc & Hf & Hu & He); [done..|].
  destruct Hst as (Hs & Hp & _ & _). unfold after_generate.
  destruct r as [s3_uri|e]; [|by apply on_exception_post; auto].
  destruct (truthy s3_uri); simpl; [|by apply on_exception_post].
  apply update_job_post; try done; [lia|].
  intros j' Hj'. by apply is_downloading.
Qed.

Lemma after_download_post kw output_path video_base_name r σ j :
  jobs_db σ !! Kwargs.job_id kw = Some j → at_stage DOWNLOADING 50 j →
  outcome_ok r →
  segment_post (Kwargs.job_id kw) j σ
    (after_download kw output_path video_base_name r σ).
Proof.
  intros Hj Hst Hr.
  destruct (at_stage_in_flight _ _ _ Hst) as (Hc & Hf & Hu & He); [done..|].
  destruct Hst as (Hs & Hp & _ & _). unfold after_download.
  destruct r as [?|e]; [|by apply on_exception_post; auto].
  apply update_job_post; try done; [lia|].
  intros j' Hj'. by apply is_processing.
Qed.

Lemma after_process_post kw output_path video_base_name r σ j :
  jobs_db σ !! Kwargs.job_id kw = Some j → at_stage PROCESSING 70 j →
  outcome_ok r →
  segment_post (Kwargs.job_id kw) j σ
    (after_process kw output_path video_base_name r σ).
Proof.
  intros Hj Hst Hr.
  destruct (at_stage_in_flight _ _ _ Hst) as (Hc & Hf & Hu & He); [done..|].
  destruct Hst as (Hs & Hp & _ & _). unfold after_process.
  destruct r as [?|e]; [|by apply on_exception_post; auto].
  pose proof (update_job_post (Kwargs.job_id kw) PROCESSING 90
    "Uploading final video to S3..." σ j
    (Await
       (To_upload_to_s3
          (path_join VIDEOS_DIR (video_base_name +:+ "_final.mp4"))
          ("s3://" +:+ Kwargs.s3_bucket kw +:+ "/" +:+ "product-videos/"
           +:+ Kwargs.product_name kw +:+ "/"
           +:+ pretty
                 (clock
                    (update_job (Kwargs.job_id kw) PROCESSING 90
                       "Uploading final video to S3..." None σ))
           +:+ "/" +:+ video_base_name +:+ "_final.mp4")
          (VideoSettings.region (Kwargs.settings kw)))
       (after_upload kw output_path
          (path_join VIDEOS_DIR (video_base_name +:+ "_final.mp4"))))
    Hj Hu He) as Hpost.
  unfold segment_post in *. simpl in *. apply Hpost; try done; [lia|].
  intros j' Hj'. by apply is_uploading.
Qed.

Lemma after_upload_post kw output_path final_video_path r σ j :
  jobs_db σ !! Kwargs.job_id kw = Some j → at_stage PROCESSING 90 j →
  outcome_ok r →
  segment_post (Kwargs.job_id kw) j σ
    (after_upload kw output_path final_video_path r σ).
Proof.
  intros Hj Hst Hr.
  destruct (at_stage_in_flight _ _ _ Hst) as (Hc & Hf & Hu & He); [done..|].
  destruct Hst as (Hs & Hp & _ & _). unfold after_upload.
  destruct r as [uploaded_s3_uri|e]; [|by apply on_exception_post; auto].
  rewrite Hj.
  set (j1 := Job.mk _ _ _ _ _ _ _ _ _).
  set (σ1 := set_jobs_db _ σ).
  assert (Hj1 : jobs_db σ1 !! Kwargs.job_id kw = Some j1)
    by apply lookup_insert_eq.
  rewrite (update_job_lookup _ _ _ _ _ _ _ Hj1).
  unfold segment_post. simpl. split_and!.
  - intros other Hne. rewrite update_job_lookup_ne by done.
    by apply lookup_insert_ne.
  - intros other Hne. rewrite update_job_videos. by apply lookup_insert_ne.
  - by rewrite update_job_keyframes.
  - rewrite (update_job_lookup _ _ _ _ _ _ _ Hj1). eexists.
    split; [done|]. split_and!; simpl; try done.
    + by apply is_completed.
    + lia.
    + intros _. eexists. by rewrite lookup_insert_eq.
Qed.

(** Of the four calls only [process_video] raises: a [FileNotFoundError]
    with a text, or [SystemExit]. *)
Lemma to_thread_outcome c o (fs fs' : gset string) r :
  to_thread c o fs = Some (r, fs') → outcome_ok r.
Proof.
  unfold outcome_ok.
  destruct c, o; simpl; try done.
  - destruct (generate_video_with_keyframes _ _ _ _ _ _ _ _ _ _ _ _)
      as [tr [res|]]; [|done].
    by intros [= <- <-].
  - destruct (download_from_s3 _ _ _ _). by intros [= <- <-].
  - unfold process_video. case_bool_decide; simpl.
    + destruct ffmpeg as [[?|] [?|] [?|] [?|]]; simpl;
        by intros [= <- <-] e [= <-].
    + by intros [= <- <-] e [= <-].
  - by intros [= <- <-].
Qed.

Lemma recorded_update_job job_id status progress message error σ :
  is_Some (jobs_db σ !! job_id) →
  recorded job_id (update_job job_id status progress message error σ)
  = Some (status, progress).
Proof.
  intros [j Hj]. unfold recorded.
  by rewrite (update_job_lookup _ _ _ _ _ _ _ Hj).
Qed.

Lemma update_job_is_Some job_id status progress message error σ other :
  is_Some (jobs_db σ !! other) →
  is_Some (jobs_db (update_job job_id status progress message error σ)
             !! other).
Proof.
  intros [j Hj]. destruct (decide (other = job_id)) as [->|Hne].
  - rewrite (update_job_lookup _ _ _ _ _ _ _ Hj). eauto.
  - rewrite update_job_lookup_ne by done. eauto.
Qed.

Lemma after_upload_success kw output_path final_video_path uploaded σ :
  is_Some (jobs_db σ !! Kwargs.job_id kw) →
  ∃ σ', after_upload kw output_path final_video_path (Ret uploaded) σ
        = (σ', Finished)
        ∧ recorded (Kwargs.job_id kw) σ' = Some (COMPLETED, 100)
        ∧ is_Some (videos_db σ' !! Kwargs.job_id kw).
Proof.
  intros [j Hj]. unfold after_upload. rewrite Hj.
  set (j1 := Job.mk _ _ _ _ _ _ _ _ _).
  set (σ1 := set_jobs_db _ _).
  assert (Hj1 : jobs_db σ1 !! Kwargs.job_id kw = Some j1)
    by apply lookup_insert_eq.
  rewrite (update_job_lookup _ _ _ _ _ _ _ Hj1).
  eexists. split; [reflexivity|]. split.
  - unfold recorded. simpl. by rewrite (update_job_lookup _ _ _ _ _ _ _ Hj1).
  - simpl. rewrite lookup_insert_eq. eauto.
Qed.

(** When every call hands back a success, the pipeline of an existing job
    records, piece by piece, GENERATING 10, DOWNLOADING 50, PROCESSING 70,
    PROCESSING 90 and COMPLETED 100, each before the next call is
    awaited, and then returns. *)
Lemma pipeline_success_order kw σ s3_uri downloaded processed uploaded :
  is_Some (jobs_db σ !! Kwargs.job_id kw) → s3_uri ≠ "" →
  ∃ σ1 c1 k1 σ2 c2 k2 σ3 c3 k3 σ4 c4 k4 σ5,
    process_video_generation kw σ = (σ1, Await c1 k1)
    ∧ recorded (Kwargs.job_id kw) σ1 = Some (GENERATING, 10)
    ∧ k1 (Ret (Some s3_uri)) σ1 = (σ2, Await c2 k2)
    ∧ recorded (Kwargs.job_id kw) σ2 = Some (DOWNLOADING, 50)
    ∧ k2 (Ret downloaded) σ2 = (σ3, Await c3 k3)
    ∧ recorded (Kwargs.job_id kw) σ3 = Some (PROCESSING, 70)
    ∧ k3 (Ret processed) σ3 = (σ4, Await c4 k4)
    ∧ recorded (Kwargs.job_id kw) σ4 = Some (PROCESSING, 90)
    ∧ k4 (Ret uploaded) σ4 = (σ5, Finished)
    ∧ recorded (Kwargs.job_id kw) σ5 = Some (COMPLETED, 100)
    ∧ is_Some (videos_db σ5 !! Kwargs.job_id kw).
Proof.
  intros H0 Huri.
  assert (Htruthy : truthy (Some s3_uri) = true) by (apply truthy_true; eauto).
  set (σ1 := update_job (Kwargs.job_id kw) GENERATING 10
               "Generating video with AWS Bedrock..." None σ).
  set (σ2 := update_job (Kwargs.job_id kw) DOWNLOADING 50
               "Video generated! Downloading from S3..." None σ1).
  set (σ3 := update_job (Kwargs.job_id kw) PROCESSING 70
               "Applying boomerang effect..." None σ2).
  set (σ4 := update_job (Kwargs.job_id kw) PROCESSING 90
               "Uploading final video to S3..." None σ3).
  assert (H1 : is_Some (jobs_db σ1 !! Kwargs.job_id kw))
    by by apply update_job_is_Some.
  assert (H2 : is_Some (jobs_db σ2 !! Kwargs.job_id kw))
    by by apply update_job_is_Some.
  assert (H3 : is_Some (jobs_db σ3 !! Kwargs.job_id kw))
    by by apply update_job_is_Some.
  assert (H4 : is_Some (jobs_db (datetime_now σ4).2 !! Kwargs.job_id kw))
    by by apply update_job_is_Some.
  set (video_base_name :=
         Kwargs.product_name kw +:+ "_"
         +:+ String.substring 0 8 (Kwargs.job_id kw)).
  destruct (after_upload_success kw
              (path_join VIDEOS_DIR (video_base_name +:+ ".mp4"))
              (path_join VIDEOS_DIR (video_base_name +:+ "_final.mp4"))
              uploaded _ H4) as (σ5 & Hup & Hrec & Hvid).
  exists σ1. do 2 eexists. exists σ2. do 2 eexists. exists σ3. do 2 eexists.
  exists (datetime_now σ4).2. do 2 eexists. exists σ5.
  split; [reflexivity|]. split; [by apply recorded_update_job|].
  split; [unfold after_generate; rewrite Htruthy; reflexivity|].
  split; [by apply recorded_update_job|].
  split; [reflexivity|]. split; [by apply recorded_update_job|].
  split; [reflexivity|]. split; [by apply (recorded_update_job _ _ _ _ _ σ3)|].
  split; [exact Hup|]. split; [exact Hrec|exact Hvid].
Qed.

End pipeline_facts.

(** ** The server: one event *)

Section step_facts.

Lemma upload_keyframes_frame product_name start_frame end_frame uuid1 uuid2
    σ (fs : gset string) :
  jobs_db (upload_keyframes product_name start_frame end_frame uuid1 uuid2
             σ fs).1.2 = jobs_db σ
  ∧ videos_db (upload_keyframes product_name start_frame end_frame uuid1 uuid2
                 σ fs).1.2 = videos_db σ.
Proof.
  unfold upload_keyframes. case_bool_decide; simpl; [|done].
  destruct end_frame as [f|]; [|done]. by case_bool_decide.
Qed.

Lemma delete_video_frame video_id refuses σ (fs : gset string) :
  jobs_db (delete_video video_id refuses σ fs).1.2 = jobs_db σ
  ∧ (videos_db (delete_video video_id refuses σ fs).1.2 = videos_db σ
     ∨ videos_db (delete_video video_id refuses σ fs).1.2
       = delete video_id (videos_db σ)).
Proof.
  unfold delete_video. destruct (videos_db σ !! video_id); [|by auto].
  destruct (unlink_existing _ _ _) as [[|] ?]; by auto.
Qed.

Lemma generate_video_cases request uuid σ :
  (∃ e, generate_video request uuid σ = (Raise e, σ, []))
  ∨ (∃ kw σ',
       generate_video request uuid σ = (Ret uuid, σ', [kw])
       ∧ Kwargs.job_id kw = uuid
       ∧ (∃ j, jobs_db σ' = <[uuid := j]> (jobs_db σ) ∧ at_stage PENDING 0 j)
       ∧ videos_db σ' = videos_db σ).
Proof.
  unfold generate_video.
  destruct (keyframes_db σ !! _) as [keyframe_data|]; [|by left; eauto].
  destruct (truthy (Keyframes.start_frame keyframe_data)); simpl;
    [|by left; eauto].
  right. do 2 eexists. split; [done|]. split; [done|]. split; [|done].
  by eexists.
Qed.

(** A state in which the records of jobs and videos and the tasks are the
    same is as consistent. *)
Lemma consistent_same s s' :
  jobs_db (store s') = jobs_db (store s) →
  videos_db (store s') = videos_db (store s) →
  tasks s' = tasks s →
  consistent s → consistent s'.
Proof. unfold consistent. by intros -> -> ->. Qed.

Lemma step_post_same ev s s' :
  jobs_db (store s') = jobs_db (store s) →
  videos_db (store s') = videos_db (store s) →
  tasks s' = tasks s →
  consistent s → step_post ev s s'.
Proof.
  intros Hj Hv Ht Hs. unfold step_post. rewrite Hj, Hv. split_and!.
  - by apply (consistent_same s).
  - intros job_id j ->. exists j. split_and!; [done|lia|done].
  - done.
  - intros job_id j' ? ?. left. eauto.
Qed.

(** A job whose task is still to run or at an [await] has not ended. *)
Lemma task_matches_live job_id t j :
  task_matches job_id t j →
  (∃ kw, t = Scheduled kw) ∨ (∃ c k, t = Started (Await c k)) →
  Job.status j ≠ COMPLETED ∧ Job.status j ≠ FAILED.
Proof.
  intros Hm Ht.
  destruct Hm as [?? _ H|??? _ H|????? _ H|????? _ H|????? _ H| | |];
    try (destruct H as (-> & _); done);
    destruct Ht as [[? [=]]|(? & ? & [=])].
Qed.

(** One piece of the pipeline of a job, run on the server. *)
Lemma segment_step ev s job_id j t σ' c' (fs' : gset string) :
  consistent s →
  jobs_db (store s) !! job_id = Some j →
  tasks s !! job_id = Some t →
  Job.status j ≠ COMPLETED → Job.status j ≠ FAILED →
  segment_post job_id j (store s) (σ', c') →
  step_post ev s (mkServer σ' fs' (<[job_id := Started c']> (tasks s))).
Proof.
  intros [Htasks Hvideos] Hj Ht Hc Hf (Hjobs' & Hvideos' & _ & j' & Hj' & Hm
    & Hprog & Hdone & Hnot).
  simpl in *.
  assert (Hnovideo : videos_db (store s) !! job_id = None).
  { destruct (videos_db (store s) !! job_id) as [v|] eqn:Ev; [|done].
    destruct (Hvideos _ _ Ev) as (_ & j0 & Hj0 & Hs0). congruence. }
  unfold step_post, consistent. simpl. split_and!.
  - intros id. destruct (decide (id = job_id)) as [->|Hne].
    + by rewrite Hj', lookup_insert_eq.
    + rewrite Hjobs', lookup_insert_ne by done. apply Htasks.
  - intros id v Hv. destruct (decide (id = job_id)) as [->|Hne].
    + destruct (decide (Job.status j' = COMPLETED)) as [Hs'|Hs'].
      * destruct (Hdone Hs') as (v' & Hv' & Hid). split; [congruence|].
        eauto.
      * rewrite (Hnot Hs') in Hv. congruence.
    + rewrite Hvideos' in Hv by done. rewrite Hjobs' by done. eauto.
  - intros id j0 Hj0. destruct (decide (id = job_id)) as [->|Hne].
    + exists j'. assert (j0 = j) as -> by congruence.
      split_and!; [done|done|]. by intros [|].
    + rewrite Hjobs' by done. exists j0. split_and!; [done|lia|done].
  - intros id _ [v Hv]. destruct (decide (id = job_id)) as [->|Hne].
    + congruence.
    + rewrite Hvideos' by done. eauto.
  - intros id j0 Hj0 Hs0. destruct (decide (id = job_id)) as [->|Hne].
    + right. assert (j0 = j') as -> by congruence.
      destruct (Hdone Hs0) as (v & -> & _). eauto.
    + left. rewrite Hjobs' in Hj0 by done. eauto.
Qed.

(** Every event keeps the invariant and has the effects of [step_post]. *)
Lemma step_consistent ev s s' :
  consistent s → step ev s = Some s' → step_post ev s s'.
Proof.
  intros Hs. destruct ev as [p sf ef u1 u2|request uuid|video_id refuses|job_id
    |job_id o]; cbn [step].
  - pose proof (upload_keyframes_frame p sf ef u1 u2 (store s) (fs s))
      as [Hj Hv].
    destruct (upload_keyframes _ _ _ _ _ _ _) as [[r σ] fs'].
    intros [= <-]. by apply step_post_same.
  - case_bool_decide as Hfresh; [done|].
    destruct (generate_video_cases request uuid (store s))
      as [(e & ->)|(kw & σ' & -> & Hkw & (j & Hjobs & Hst) & Hvid)].
    { intros [= <-]. by apply step_post_same. }
    intros [= <-]. simpl. rewrite Hkw.
    apply not_elem_of_dom in Hfresh.
    destruct Hs as [Htasks Hvideos].
    unfold step_post, consistent. simpl. rewrite Hjobs, Hvid. split_and!.
    + intros id. destruct (decide (id = uuid)) as [->|Hne].
      * rewrite !lookup_insert_eq. by apply is_scheduled.
      * rewrite !lookup_insert_ne by done. apply Htasks.
    + intros id v Hv. destruct (Hvideos _ _ Hv) as (Hid & j0 & Hj0 & Hs0).
      split; [done|]. exists j0. split; [|done].
      rewrite lookup_insert_ne; [done|congruence].
    + intros id j0 Hj0. exists j0. split_and!; [|lia|done].
      rewrite lookup_insert_ne; [done|congruence].
    + done.
    + intros id j0. destruct (decide (id = uuid)) as [->|Hne].
      * rewrite lookup_insert_eq. intros [= <-] Hc.
        destruct Hst as (Hp & _). congruence.
      * rewrite lookup_insert_ne by done. left. eauto.
  - pose proof (delete_video_frame video_id refuses (store s) (fs s))
      as [Hj Hv].
    destruct (delete_video _ _ _ _) as [[r σ] fs']. simpl in *.
    intros [= <-]. destruct Hv as [Hv|Hv]; [by apply step_post_same|].
    destruct Hs as [Htasks Hvideos].
    unfold step_post, consistent. simpl. rewrite Hj, Hv. split_and!.
    + done.
    + intros id v [Hne Hl]%lookup_delete_Some. by apply Hvideos.
    + intros id j ->. exists j. split_and!; [done|lia|done].
    + intros id Hne%bool_decide_eq_false [v Hl]. exists v.
      rewrite lookup_delete_ne; [done|congruence].
    + intros id j' ? ?. left. eauto.
  - destruct (tasks s !! job_id) as [[kw|c]|] eqn:Et; try done.
    pose proof (proj1 Hs job_id) as Hm. rewrite Et in Hm.
    destruct (jobs_db (store s) !! job_id) as [j|] eqn:Ej; [|done].
    destruct (task_matches_live _ _ _ Hm) as [Hc Hf]; [by eauto|].
    inversion Hm as [kw' j' Hid Hst| | | | | | |]; subst.
    pose proof (process_video_generation_post kw (store s) j Ej Hst) as Hpost.
    destruct (process_video_generation kw (store s)) as [σ' c'].
    intros [= <-]. by apply (segment_step _ s _ j (Scheduled kw)).
  - destruct (tasks s !! job_id) as [[kw|[c k| |e]]|] eqn:Et; try done.
    destruct (to_thread c o (fs s)) as [[r fs']|] eqn:Eo; [|done].
    apply to_thread_outcome in Eo.
    pose proof (proj1 Hs job_id) as Hm. rewrite Et in Hm.
    destruct (jobs_db (store s) !! job_id) as [j|] eqn:Ej; [|done].
    destruct (task_matches_live _ _ _ Hm) as [Hc Hf]; [by eauto|].
    assert (Hpost : segment_post job_id j (store s) (k r (store s))).
    { inversion Hm; subst.
      - by apply after_generate_post.
      - by apply after_download_post.
      - by apply after_process_post.
      - by apply after_upload_post. }
    destruct (k r (store s)) as [σ' c'].
    intros [= <-]. by apply (segment_step _ s _ j (Started (Await c k))).
Qed.

End step_facts.

(** ** The server: runs *)

Section run_facts.

Lemma exec_snoc evs ev s : exec (evs ++ [ev]) s = exec evs s ≫= step ev.
Proof. unfold exec. by rewrite foldl_app. Qed.

Lemma exec_app evs1 evs2 s s1 :
  exec evs1 s = Some s1 → exec (evs1 ++ evs2) s = exec evs2 s1.
Proof. unfold exec. rewrite foldl_app. by intros ->. Qed.

Lemma exec_after evs s : happens evs s = true → exec evs s = Some (after evs s).
Proof. unfold happens, after. by destruct (exec evs s). Qed.

Lemma boot_consistent : consistent boot.
Proof.
  split.
  - intros job_id. simpl. by rewrite !lookup_empty.
  - intros video_id v. simpl. by rewrite lookup_empty.
Qed.

(** The invariant holds along every run that starts from a consistent
    state. *)
Lemma exec_consistent evs s0 s :
  consistent s0 → exec evs s0 = Some s → consistent s.
Proof.
  intros Hs0. revert s. induction evs as [|ev evs IH] using rev_ind; intros s.
  - by intros [= <-].
  - rewrite exec_snoc. destruct (exec evs s0) as [s1|]; [|done]. simpl.
    intros Hstep. by apply (step_consistent ev s1 s (IH _ eq_refl)).
Qed.

(** Along a run a job stays, a finished job stays as it is, and progress
    does not go down while the job has not failed. *)
Lemma exec_progress evs s1 s2 job_id j1 :
  consistent s1 → exec evs s1 = Some s2 →
  jobs_db (store s1) !! job_id = Some j1 →
  ∃ j2, jobs_db (store s2) !! job_id = Some j2
        ∧ (Job.status j2 ≠ FAILED → (Job.progress j1 ≤ Job.progress j2)%Z)
        ∧ (Job.status j1 = COMPLETED ∨ Job.status j1 = FAILED → j2 = j1).
Proof.
  intros Hs1. revert s2.
  induction evs as [|ev evs IH] using rev_ind; intros s2.
  - intros [= <-] Hj. exists j1. split_and!; [done|lia|done].
  - rewrite exec_snoc. destruct (exec evs s1) as [s|] eqn:Es; [|done]. simpl.
    intros Hstep Hj. destruct (IH _ eq_refl Hj) as (j & Hjs & Hprog & Hterm).
    pose proof (exec_consistent _ _ _ Hs1 Es) as Hs.
    destruct (step_consistent ev s s2 Hs Hstep) as (_ & Hjobs & _ & _).
    destruct (Hjobs _ _ Hjs) as (j2 & Hj2 & Hprog2 & Hterm2).
    exists j2. split_and!; [done| |].
    + intros Hnf. assert (Hnf0 : Job.status j ≠ FAILED).
      { intros Hf. rewrite Hterm2 in Hnf by auto. done. }
      specialize (Hprog Hnf0). specialize (Hprog2 Hnf). lia.
    + intros Ht. specialize (Hterm Ht). subst j. by apply Hterm2.
Qed.



End run_facts.

(** A sample run does happen: evaluate it. *)
Ltac run_exec := apply exec_after; vm_compute; reflexivity.

(** ** Jobs on the running server *)

(** C6. On a server started on an empty database, take any state of a run
    and any later state: a job present in the first is present in the
    second, and unless its status there is FAILED its progress there is
    not less than in the first. *)
Theorem progress_never_decreases (evs1 evs2 : list event_loop)
    (s1 s2 : server) (job_id : string) (j1 : Job.t) :
  exec evs1 boot = Some s1 → exec evs2 s1 = Some s2 →
  jobs_db (store s1) !! job_id = Some j1 →
  ∃ j2, jobs_db (store s2) !! job_id = Some j2
        ∧ (Job.status j2 ≠ FAILED → (Job.progress j1 ≤ Job.progress j2)%Z).
Proof.
  intros H1 H2 Hj.
  pose proof (exec_consistent _ _ _ boot_consistent H1) as Hs1.
  destruct (exec_progress evs2 s1 s2 job_id j1 Hs1 H2 Hj) as (j2 & ? & ? & _).
  eauto.
Qed.

Lemma progress_never_decreases_witness :
  ∃ j1,
    exec demo_start boot = Some (after demo_start boot)
    ∧ exec (demo_calls None Ffmpeg.ok None) (after demo_start boot)
      = Some (after demo_run boot)
    ∧ jobs_db (store (after demo_start boot)) !! demo_job = Some j1
    ∧ ∃ j2, jobs_db (store (after demo_run boot)) !! demo_job = Some j2
            ∧ (Job.status j2 ≠ FAILED → (Job.progress j1 ≤ Job.progress j2)%Z).
Proof.
  assert (H1 : exec demo_start boot = Some (after demo_start boot))
    by run_exec.
  assert (H2 : exec (demo_calls None Ffmpeg.ok None) (after demo_start boot)
               = Some (after demo_run boot)).
  { unfold demo_run. rewrite <- (exec_app _ _ _ _ H1). run_exec. }
  eexists. split; [exact H1|]. split; [exact H2|].
  split; [vm_compute; reflexivity|].
  apply (progress_never_decreases demo_start
           (demo_calls None Ffmpeg.ok None) _ _ demo_job _ H1 H2).
  vm_compute; reflexivity.
Defined.





(** ** Failing steps *)

(** C1, the code against the claim: when ffmpeg fails, [process_video]
    calls [sys.exit(1)]; the [SystemExit] is not an [Exception], passes
    the pipeline's [except Exception] clause and leaves the coroutine; the
    store is not touched, so the job stays at PROCESSING, 70, without an
    error.  First for any arguments, then on a run of the server. *)
Theorem SystemExit_leaves_pipeline :
  (∀ kw output_path video_base_name σ code,
     after_process kw output_path video_base_name (Raise (SystemExit code)) σ
     = (σ, Propagated (SystemExit code)))
  ∧ (∀ video_name base_dir fs msg,
       path_join base_dir (video_name +:+ ".mp4") ∈ fs →
       (process_video video_name base_dir
          (Ffmpeg.mk (Some msg) None None None) fs).1
       = Raise (SystemExit 1))
  ∧ ∃ s j,
      exec run_ffmpeg_fails boot = Some s
      ∧ tasks s !! demo_job = Some (Started (Propagated (SystemExit 1)))
      ∧ jobs_db (store s) !! demo_job = Some j
      ∧ Job.status j = PROCESSING ∧ Job.progress j = 70
      ∧ Job.error j = None.
Proof.
  split_and!.
  - done.
  - intros video_name base_dir fs msg Hin. unfold process_video.
    by rewrite bool_decide_eq_true_2.
  - exists (after run_ffmpeg_fails boot). eexists.
    split; [run_exec|]. split; [vm_compute; reflexivity|].
    split; [vm_compute; reflexivity|]. split_and!; reflexivity.
Qed.

(** C5, the code against the claim: a failing step does not always take
    the job straight to FAILED.  When the upload fails the job is recorded
    as COMPLETED, 100; when the download fails the job first moves on to
    PROCESSING, 70 and fails only in the next step; when ffmpeg fails the
    job stays at PROCESSING, 70 and is never marked FAILED.  The run in
    which every step goes through shows the order of the claim. *)
Theorem failing_step_not_short_circuited :
  job_history demo_job run_upload_fails boot
  = Some [(PENDING, 0); (GENERATING, 10); (DOWNLOADING, 50); (PROCESSING, 70);
          (PROCESSING, 90); (COMPLETED, 100)]
  ∧ job_history demo_job run_download_fails boot
    = Some [(PENDING, 0); (GENERATING, 10); (DOWNLOADING, 50);
            (PROCESSING, 70); (FAILED, 0)]
  ∧ job_history demo_job run_ffmpeg_fails boot
    = Some [(PENDING, 0); (GENERATING, 10); (DOWNLOADING, 50);
            (PROCESSING, 70)]
  ∧ job_history demo_job demo_run boot
    = Some [(PENDING, 0); (GENERATING, 10); (DOWNLOADING, 50);
            (PROCESSING, 70); (PROCESSING, 90); (COMPLETED, 100)].
Proof. split_and!; vm_compute; reflexivity. Qed.

(** * Further properties *)

(** ** What the pieces of the pipeline touch *)

Section touch_facts.

Lemma touches_only_refl job_id σ : touches_only job_id σ σ.
Proof. done. Qed.

Lemma touches_only_trans job_id σ1 σ2 σ3 :
  touches_only job_id σ1 σ2 → touches_only job_id σ2 σ3 →
  touches_only job_id σ1 σ3.
Proof.
  intros (Hj1 & Hv1 & Hk1) (Hj2 & Hv2 & Hk2). split_and!.
  - intros other Hne. by rewrite Hj2, Hj1.
  - intros other Hne. by rewrite Hv2, Hv1.
  - by rewrite Hk2, Hk1.
Qed.

Lemma update_job_touches job_id status progress message error σ :
  touches_only job_id σ (update_job job_id status progress message error σ).
Proof.
  split_and!.
  - intros other Hne. by apply update_job_lookup_ne.
  - intros other _. by rewrite update_job_videos.
  - apply update_job_keyframes.
Qed.

Lemma on_exception_touches job_id e σ :
  touches_only job_id σ (on_exception job_id e σ).1.
Proof.
  unfold on_exception. destruct (is_Exception e); simpl.
  - apply update_job_touches.
  - apply touches_only_refl.
Qed.

Lemma process_video_generation_touches kw σ :
  touches_only (Kwargs.job_id kw) σ (process_video_generation kw σ).1.
Proof. apply update_job_touches. Qed.

Lemma after_generate_touches kw r σ :
  touches_only (Kwargs.job_id kw) σ (after_generate kw r σ).1.
Proof.
  unfold after_generate. destruct r as [s3_uri|e].
  - destruct (truthy s3_uri); cbn [negb].
    + apply update_job_touches.
    + apply on_exception_touches.
  - apply on_exception_touches.
Qed.

Lemma after_download_touches kw output_path video_base_name r σ :
  touches_only (Kwargs.job_id kw) σ
    (after_download kw output_path video_base_name r σ).1.
Proof.
  unfold after_download. destruct r as [?|e].
  - apply update_job_touches.
  - apply on_exception_touches.
Qed.

Lemma after_process_touches kw output_path video_base_name r σ :
  touches_only (Kwargs.job_id kw) σ
    (after_process kw output_path video_base_name r σ).1.
Proof.
  unfold after_process. destruct r as [?|e].
  - apply (update_job_touches (Kwargs.job_id kw) PROCESSING 90
             "Uploading final video to S3..." None σ).
  - apply on_exception_touches.
Qed.

Lemma after_upload_touches kw output_path final_video_path r σ :
  touches_only (Kwargs.job_id kw) σ
    (after_upload kw output_path final_video_path r σ).1.
Proof.
  unfold after_upload. destruct r as [uploaded_s3_uri|e];
    [|apply on_exception_touches].
  destruct (jobs_db σ !! Kwargs.job_id kw) as [j|] eqn:Hj;
    [|apply on_exception_touches].
  set (j1 := Job.mk _ _ _ _ _ _ _ _ _).
  set (σ1 := set_jobs_db _ σ).
  assert (Hj1 : jobs_db σ1 !! Kwargs.job_id kw = Some j1)
    by apply lookup_insert_eq.
  rewrite (update_job_lookup _ _ _ _ _ _ _ Hj1). simpl. split_and!; simpl.
  - intros other Hne. rewrite update_job_lookup_ne by done.
    by apply lookup_insert_ne.
  - intros other Hne. rewrite update_job_videos. by apply lookup_insert_ne.
  - by rewrite update_job_keyframes.
Qed.

(** The rest of the coroutine after any of its suspension points touches
    the records of its own job only. *)
Lemma awaits_touches kw c k status progress r σ :
  awaits kw c k status progress →
  touches_only (Kwargs.job_id kw) σ (k r σ).1.
Proof.
  intros []; [apply after_generate_touches|apply after_download_touches
             |apply after_process_touches|apply after_upload_touches].
Qed.

End touch_facts.

(** ** The database file follows the tables *)

Section sync_facts.

Lemma save_database_in_sync σ : in_sync (save_database σ).
Proof. done. Qed.

Lemma update_job_in_sync job_id status progress message error σ :
  in_sync σ → in_sync (update_job job_id status progress message error σ).
Proof. intros H. unfold update_job. by destruct (jobs_db σ !! job_id). Qed.

Lemma on_exception_in_sync job_id e σ :
  in_sync σ → in_sync (on_exception job_id e σ).1.
Proof.
  intros H. unfold on_exception. destruct (is_Exception e); simpl; [|done].
  by apply update_job_in_sync.
Qed.

(** The only write to a table that is not followed at once by
    [save_database], the one of [video_url], is saved by the
    [update_job] that comes next. *)
Lemma awaits_in_sync kw c k status progress r σ :
  awaits kw c k status progress → in_sync σ → in_sync (k r σ).1.
Proof.
  intros Hk Hσ. destruct Hk.
  - unfold after_generate. destruct r as [s3_uri|e];
      [|by apply on_exception_in_sync].
    destruct (truthy s3_uri); cbn [negb];
      [by apply update_job_in_sync|by apply on_exception_in_sync].
  - unfold after_download. destruct r as [?|e];
      [by apply update_job_in_sync|by apply on_exception_in_sync].
  - unfold after_process. destruct r as [?|e];
      [|by apply on_exception_in_sync].
    apply (update_job_in_sync (Kwargs.job_id kw) PROCESSING 90
             "Uploading final video to S3..." None σ Hσ).
  - unfold after_upload. destruct r as [?|e];
      [|by apply on_exception_in_sync].
    destruct (jobs_db σ !! Kwargs.job_id kw) as [j|] eqn:Hj;
      [|by apply on_exception_in_sync].
    set (j1 := Job.mk _ _ _ _ _ _ _ _ _).
    set (σ1 := set_jobs_db _ σ).
    assert (Hj1 : jobs_db σ1 !! Kwargs.job_id kw = Some j1)
      by apply lookup_insert_eq.
    by rewrite (update_job_lookup _ _ _ _ _ _ _ Hj1).
Qed.

End sync_facts.

(** ** The stages of the pipeline *)

Section stage_facts.

Lemma recorded_is_Some job_id σ x :
  recorded job_id σ = Some x → is_Some (jobs_db σ !! job_id).
Proof. unfold recorded. destruct (jobs_db σ !! job_id); [eauto|done]. Qed.

Lemma recorded_ext job_id σ σ' :
  jobs_db σ' !! job_id = jobs_db σ !! job_id →
  recorded job_id σ' = recorded job_id σ.
Proof. unfold recorded. by intros ->. Qed.

Lemma task_stage_ext job_id σ σ' t :
  recorded job_id σ' = recorded job_id σ →
  task_stage job_id σ t → task_stage job_id σ' t.
Proof. intros H. destruct t as [kw|[c k| |e]]; simpl; by rewrite H. Qed.

Lemma on_exception_caught job_id msg σ x :
  recorded job_id σ = Some x →
  recorded job_id (on_exception job_id (Exception msg) σ).1 = Some (FAILED, 0)
  ∧ (on_exception job_id (Exception msg) σ).2 = Finished.
Proof.
  intros H%recorded_is_Some. unfold on_exception. cbn [is_Exception fst snd].
  split; [by apply recorded_update_job|done].
Qed.

(** What the four calls can hand back. *)
Lemma to_thread_process_video video_base_name base_dir o (fs fs' : gset string) r :
  to_thread (To_process_video video_base_name base_dir) o fs = Some (r, fs') →
  r = Ret None
  ∨ r = Raise (Exception ("Error: "
                          +:+ path_join base_dir (video_base_name +:+ ".mp4")
                          +:+ " not found"))
  ∨ r = Raise (SystemExit 1).
Proof.
  destruct o as [| |ffmpeg]; simpl; try done.
  unfold process_video. case_bool_decide; simpl.
  - destruct ffmpeg as [[?|] [?|] [?|] [?|]]; simpl; intros [= <- <-]; auto.
  - intros [= <- <-]. auto.
Qed.

Lemma to_thread_returns c o (fs fs' : gset string) r :
  to_thread c o fs = Some (r, fs') →
  (∀ video_base_name base_dir, c ≠ To_process_video video_base_name base_dir) →
  ∃ x, r = Ret x.
Proof.
  intros H Hc. destruct c, o; simpl in H; try done.
  - destruct (generate_video_with_keyframes _ _ _ _ _ _ _ _ _ _ _ _)
      as [tr [res|]]; [|done].
    injection H as <- <-. eauto.
  - destruct (download_from_s3 _ _ _ _). injection H as <- <-. eauto.
  - by destruct (Hc video_base_name base_dir).
  - injection H as <- <-. eauto.
Qed.

Ltac in_moves := unfold moves; rewrite !elem_of_cons; tauto.

(** Resuming the coroutine at any of its suspension points, with what the
    awaited call hands back: the record of the job stays or makes one of
    the moves, and the coroutine is at the stage the record shows. *)
Lemma awaits_resume kw c k status progress o (fs fs' : gset string) r σ :
  awaits kw c k status progress →
  to_thread c o fs = Some (r, fs') →
  recorded (Kwargs.job_id kw) σ = Some (status, progress) →
  ∃ next,
    recorded (Kwargs.job_id kw) (k r σ).1 = Some next
    ∧ (next = (status, progress) ∨ ((status, progress), next) ∈ moves)
    ∧ task_stage (Kwargs.job_id kw) (k r σ).1 (Started (k r σ).2).
Proof.
  intros Hk Ho Hrec.
  pose proof (recorded_is_Some _ _ _ Hrec) as Hjob.
  destruct Hk.
  - apply to_thread_returns in Ho as [s3_uri ->]; [|done].
    unfold after_generate. destruct (truthy s3_uri); cbn [negb].
    + exists (DOWNLOADING, 50). cbn [fst snd]. split_and!.
      * by apply recorded_update_job.
      * right. in_moves.
      * exists kw, DOWNLOADING, 50. split_and!; [done|apply awaits_download|].
        by apply recorded_update_job.
    + destruct (on_exception_caught (Kwargs.job_id kw)
                  "Video generation failed - no S3 URI returned" σ _ Hrec)
        as [H1 H2].
      exists (FAILED, 0). rewrite H2. split_and!; [done| |by right].
      right. in_moves.
  - apply to_thread_returns in Ho as [x ->]; [|done].
    unfold after_download. exists (PROCESSING, 70). cbn [fst snd]. split_and!.
    + by apply recorded_update_job.
    + right. in_moves.
    + exists kw, PROCESSING, 70. split_and!; [done|apply awaits_process|].
      by apply recorded_update_job.
  - apply to_thread_process_video in Ho as [->|[->| ->]].
    + unfold after_process. exists (PROCESSING, 90). cbn [fst snd].
      assert (Hrec' : recorded (Kwargs.job_id kw)
                (update_job (Kwargs.job_id kw) PROCESSING 90
                   "Uploading final video to S3..." None σ)
              = Some (PROCESSING, 90)) by by apply recorded_update_job.
      split_and!; [exact Hrec'|right; in_moves|].
      exists kw, PROCESSING, 90. split_and!; [done| |exact Hrec'].
      apply awaits_upload.
    + destruct (on_exception_caught (Kwargs.job_id kw)
                  ("Error: "
                   +:+ path_join VIDEOS_DIR (video_base_name_of kw +:+ ".mp4")
                   +:+ " not found") σ _ Hrec) as [H1 H2].
      exists (FAILED, 0). unfold after_process. rewrite H2.
      split_and!; [done| |by right]. right. in_moves.
    + exists (PROCESSING, 70). unfold after_process, on_exception.
      cbn [is_Exception fst snd]. split_and!; [done|by left|done].
  - apply to_thread_returns in Ho as [x ->]; [|done].
    destruct (after_upload_success kw (output_path_of kw)
                (final_video_path_of kw) x σ Hjob) as (σ' & -> & Hrec' & _).
    exists (COMPLETED, 100). cbn [fst snd].
    split_and!; [done| |by left]. right. in_moves.
Qed.

End stage_facts.

(** ** The server: stages along a run *)

Section staged_facts.

Lemma upload_keyframes_in_sync product_name start_frame end_frame uuid1 uuid2
    σ (fs : gset string) :
  in_sync σ →
  in_sync (upload_keyframes product_name start_frame end_frame uuid1 uuid2
             σ fs).1.2.
Proof.
  intros H. unfold upload_keyframes. case_bool_decide; simpl; [|done].
  destruct end_frame as [f|]; [|done]. by case_bool_decide.
Qed.

Lemma delete_video_in_sync video_id refuses σ (fs : gset string) :
  in_sync σ → in_sync (delete_video video_id refuses σ fs).1.2.
Proof.
  intros H. unfold delete_video. destruct (videos_db σ !! video_id); [|done].
  by destruct (unlink_existing _ _ _) as [[|] ?].
Qed.

Lemma generate_video_in_sync request uuid σ :
  in_sync σ → in_sync (generate_video request uuid σ).1.2.
Proof.
  intros H. unfold generate_video.
  destruct (keyframes_db σ !! _) as [keyframe_data|]; [|done].
  by destruct (truthy (Keyframes.start_frame keyframe_data)).
Qed.

(** An event that leaves the jobs and the tasks as they are. *)
Lemma stage_post_same ev s s' :
  jobs_db (store s') = jobs_db (store s) →
  tasks s' = tasks s →
  task_of ev = None →
  (in_sync (store s) → in_sync (store s')) →
  staged s → stage_post ev s s'.
Proof.
  intros Hj Ht Hev Hsync [Hstage Htask].
  assert (Hrec : ∀ job_id, recorded job_id (store s') = recorded job_id (store s)).
  { intros job_id. apply recorded_ext. by rewrite Hj. }
  split_and!.
  - split.
    + intros job_id t. rewrite Ht. intros Hl.
      by apply (task_stage_ext _ (store s)), Hstage.
    + intros job_id. rewrite Hj, Ht. apply Htask.
  - done.
  - intros job_id a Ha. exists a. rewrite Hrec. auto.
  - intros job_id b. rewrite Hrec. congruence.
  - intros job_id. by rewrite Hev.
Qed.

(** An event that runs a piece of the coroutine of one job. *)
Lemma stage_post_task ev s job_id t σ' c' (fs' : gset string) a b :
  staged s →
  task_of ev = Some job_id →
  tasks s !! job_id = Some t →
  recorded job_id (store s) = Some a →
  recorded job_id σ' = Some b →
  b = a ∨ (a, b) ∈ moves →
  task_stage job_id σ' (Started c') →
  touches_only job_id (store s) σ' →
  (in_sync (store s) → in_sync σ') →
  stage_post ev s (mkServer σ' fs' (<[job_id := Started c']> (tasks s))).
Proof.
  intros [Hstage Htask] Hev Ht Ha Hb Hab Hc' Htouch Hsync.
  assert (Hrec : ∀ other, other ≠ job_id →
                          recorded other σ' = recorded other (store s)).
  { intros other Hne. apply recorded_ext. by apply Htouch. }
  split_and!; simpl.
  - split; simpl.
    + intros id t'. destruct (decide (id = job_id)) as [->|Hne].
      * rewrite lookup_insert_eq. by intros [= <-].
      * rewrite lookup_insert_ne by done. intros Hl.
        apply (task_stage_ext _ (store s)); [by apply Hrec|by apply Hstage].
    + intros id. destruct (decide (id = job_id)) as [->|Hne].
      * rewrite lookup_insert_eq. eauto.
      * rewrite lookup_insert_ne by done.
        rewrite (proj1 Htouch) by done. apply Htask.
  - done.
  - intros id x Hx. destruct (decide (id = job_id)) as [->|Hne].
    + exists b. split; [done|]. congruence.
    + exists x. rewrite Hrec by done. auto.
  - intros id x Hnone Hx. destruct (decide (id = job_id)) as [->|Hne].
    + congruence.
    + rewrite Hrec in Hx by done. congruence.
  - intros id. rewrite Hev. by intros [= <-].
Qed.

(** Every event keeps the stages and has the effects of [stage_post]. *)
Lemma step_staged ev s s' :
  staged s → step ev s = Some s' → stage_post ev s s'.
Proof.
  intros Hs. destruct ev as [p sf ef u1 u2|request uuid|video_id refuses|job_id
    |job_id o]; cbn [step].
  - pose proof (upload_keyframes_frame p sf ef u1 u2 (store s) (fs s))
      as [Hj _].
    pose proof (upload_keyframes_in_sync p sf ef u1 u2 (store s) (fs s))
      as Hsync.
    destruct (upload_keyframes _ _ _ _ _ _ _) as [[r σ] fs'].
    intros [= <-]. by apply stage_post_same.
  - case_bool_decide as Hfresh; [done|].
    pose proof (generate_video_in_sync request uuid (store s)) as Hsync.
    destruct (generate_video_cases request uuid (store s))
      as [(e & He)|(kw & σ' & He & Hkw & (j & Hjobs & Hst) & _)];
      rewrite He in *; simpl in Hsync.
    { intros [= <-]. by apply stage_post_same. }
    intros [= <-]. simpl. rewrite Hkw.
    apply not_elem_of_dom in Hfresh. destruct Hs as [Hstage Htask].
    assert (Hrec : ∀ other, other ≠ uuid →
                            recorded other σ' = recorded other (store s)).
    { intros other Hne. apply recorded_ext. rewrite Hjobs.
      by apply lookup_insert_ne. }
    assert (Hnew : recorded uuid σ' = Some (PENDING, 0)).
    { unfold recorded. rewrite Hjobs, lookup_insert_eq. simpl.
      by destruct Hst as (-> & -> & _). }
    split_and!; simpl.
    + split; simpl.
      * intros id t. destruct (decide (id = uuid)) as [->|Hne].
        -- rewrite lookup_insert_eq. by intros [= <-].
        -- rewrite lookup_insert_ne by done. intros Hl.
           apply (task_stage_ext _ (store s)); [by apply Hrec|by apply Hstage].
      * intros id. destruct (decide (id = uuid)) as [->|Hne].
        -- rewrite lookup_insert_eq. eauto.
        -- rewrite lookup_insert_ne, Hjobs, lookup_insert_ne by done.
           apply Htask.
    + done.
    + intros id a Ha. exists a. rewrite Hrec; [auto|].
      intros ->. unfold recorded in Ha. by rewrite Hfresh in Ha.
    + intros id b Hnone Hb. destruct (decide (id = uuid)) as [->|Hne].
      * congruence.
      * rewrite Hrec in Hb by done. congruence.
    + done.
  - pose proof (delete_video_frame video_id refuses (store s) (fs s))
      as [Hj _].
    pose proof (delete_video_in_sync video_id refuses (store s) (fs s))
      as Hsync.
    destruct (delete_video _ _ _ _) as [[r σ] fs']. simpl in *.
    intros [= <-]. by apply stage_post_same.
  - destruct (tasks s !! job_id) as [[kw|c]|] eqn:Et; try done.
    destruct (proj1 Hs _ _ Et) as [Hkw Hrec]. subst job_id.
    pose proof (process_video_generation_touches kw (store s)) as Htouch.
    assert (Hnext : recorded (Kwargs.job_id kw)
                      (process_video_generation kw (store s)).1
                    = Some (GENERATING, 10)).
    { apply recorded_update_job. by apply (recorded_is_Some _ _ _ Hrec). }
    assert (Hsync : in_sync (store s) →
                    in_sync (process_video_generation kw (store s)).1)
      by apply update_job_in_sync.
    assert (Hstage : task_stage (Kwargs.job_id kw)
                       (process_video_generation kw (store s)).1
                       (Started (process_video_generation kw (store s)).2)).
    { exists kw, GENERATING, 10. split_and!; [done|apply awaits_generate|done]. }
    destruct (process_video_generation kw (store s)) as [σ' c'].
    intros [= <-].
    apply (stage_post_task _ s _ (Scheduled kw) σ' c' (fs s)
             (PENDING, 0) (GENERATING, 10)); try done.
    right. unfold moves. rewrite !elem_of_cons. tauto.
  - destruct (tasks s !! job_id) as [[kw|[c k| |e]]|] eqn:Et; try done.
    destruct (to_thread c o (fs s)) as [[r fs']|] eqn:Eo; [|done].
    destruct (proj1 Hs _ _ Et) as (kw & status & progress & Hkw & Hk & Hrec).
    subst job_id.
    destruct (awaits_resume kw c k status progress o _ _ r (store s) Hk Eo Hrec)
      as (next & Hnext & Hmove & Hstage).
    pose proof (awaits_touches kw c k status progress r (store s) Hk) as Htouch.
    pose proof (awaits_in_sync kw c k status progress r (store s) Hk) as Hsync.
    destruct (k r (store s)) as [σ' c'].
    intros [= <-].
    by apply (stage_post_task _ s _ (Started (Await c k)) σ' c' fs'
                (status, progress) next).
Qed.

Lemma boot_staged : staged boot.
Proof.
  split.
  - intros job_id t. simpl. by rewrite lookup_empty.
  - intros job_id. simpl. rewrite lookup_empty. by intros [? [=]].
Qed.

Lemma exec_staged evs s : exec evs boot = Some s → staged s.
Proof.
  revert s. induction evs as [|ev evs IH] using rev_ind; intros s.
  - intros [= <-]. apply boot_staged.
  - rewrite exec_snoc. destruct (exec evs boot) as [s1|]; [|done]. simpl.
    intros Hstep. by destruct (step_staged ev s1 s (IH _ eq_refl) Hstep).
Qed.

End staged_facts.

Lemma step_after ev s : happens [ev] s = true → step ev s = Some (after [ev] s).
Proof. intros H. by apply exec_after in H. Qed.



(** X2. Once a job is COMPLETED or FAILED its record is never written
    again: in every later state of the run the job is there with the very
    same record. *)
Theorem finished_job_never_changes (evs1 evs2 : list event_loop)
    (s1 s2 : server) (job_id : string) (j : Job.t) :
  exec evs1 boot = Some s1 → exec evs2 s1 = Some s2 →
  jobs_db (store s1) !! job_id = Some j →
  Job.status j = COMPLETED ∨ Job.status j = FAILED →
  jobs_db (store s2) !! job_id = Some j.
Proof.
  intros H1 H2 Hj Hdone.
  pose proof (exec_consistent _ _ _ boot_consistent H1) as Hs1.
  destruct (exec_progress evs2 s1 s2 job_id j Hs1 H2 Hj) as (j2 & Hj2 & _ & Heq).
  by rewrite Hj2, (Heq Hdone).
Qed.

Lemma finished_job_never_changes_witness :
  ∃ j,
    exec demo_run boot = Some (after demo_run boot)
    ∧ exec [DELETE_videos demo_job never_refuses] (after demo_run boot)
      = Some (after demo_run_then_delete boot)
    ∧ jobs_db (store (after demo_run boot)) !! demo_job = Some j
    ∧ Job.status j = COMPLETED
    ∧ jobs_db (store (after demo_run_then_delete boot)) !! demo_job = Some j.
Proof.
  assert (H1 : exec demo_run boot = Some (after demo_run boot)) by run_exec.
  assert (H2 : exec [DELETE_videos demo_job never_refuses] (after demo_run boot)
               = Some (after demo_run_then_delete boot)).
  { unfold demo_run_then_delete. rewrite <- (exec_app _ _ _ _ H1). run_exec. }
  eexists. split; [exact H1|]. split; [exact H2|].
  split; [vm_compute; reflexivity|]. split; [reflexivity|].
  eapply (finished_job_never_changes demo_run
            [DELETE_videos demo_job never_refuses] _ _ demo_job _ H1 H2).
  - vm_compute; reflexivity.
  - left; reflexivity.
Defined.

(** X3. An event that starts or resumes the background task of a job
    changes, among all job records and video records, those of that job
    only, and leaves the keyframe table alone: concurrent jobs do not
    write into each other's records. *)
Theorem task_touches_own_job_only (evs : list event_loop) (s s' : server)
    (ev : event_loop) (job_id : string) :
  exec evs boot = Some s → task_of ev = Some job_id → step ev s = Some s' →
  touches_only job_id (store s) (store s').
Proof.
  intros Hexec Hev Hstep.
  destruct (step_staged ev s s' (exec_staged _ _ Hexec) Hstep)
    as (_ & _ & _ & _ & H).
  by apply H.
Qed.

Lemma task_touches_own_job_only_witness :
  exec demo_start boot = Some (after demo_start boot)
  ∧ step demo_generated (after demo_start boot)
    = Some (after [demo_generated] (after demo_start boot))
  ∧ touches_only demo_job (store (after demo_start boot))
      (store (after [demo_generated] (after demo_start boot))).
Proof.
  assert (H1 : exec demo_start boot = Some (after demo_start boot))
    by run_exec.
  assert (H2 : step demo_generated (after demo_start boot)
               = Some (after [demo_generated] (after demo_start boot)))
    by (apply step_after; vm_compute; reflexivity).
  split; [exact H1|]. split; [exact H2|].
  exact (task_touches_own_job_only demo_start _ _ demo_generated demo_job
           H1 eq_refl H2).
Defined.

Lemma moves_recordable a b : (a, b) ∈ moves → b ∈ recordable.
Proof.
  unfold moves, recordable. rewrite !elem_of_cons, elem_of_nil.
  intros H. repeat destruct H as [H|H]; try done;
    injection H as <- <-; auto 10.
Qed.

Lemma exec_recordable evs s job_id a :
  exec evs boot = Some s → recorded job_id (store s) = Some a →
  a ∈ recordable.
Proof.
  revert s a. induction evs as [|ev evs IH] using rev_ind; intros s a.
  - intros [= <-]. unfold recorded. simpl. by rewrite lookup_empty.
  - rewrite exec_snoc. destruct (exec evs boot) as [s1|] eqn:E1; [|done].
    simpl. intros Hstep Ha.
    destruct (step_staged ev s1 s (exec_staged _ _ E1) Hstep)
      as (_ & _ & Hold & Hnew & _).
    destruct (recorded job_id (store s1)) as [a1|] eqn:Ea1.
    + destruct (Hold _ _ Ea1) as (b & Hb & [->|Hmove]).
      * assert (a = a1) as -> by congruence. by apply (IH s1).
      * assert (a = b) as -> by congruence. by apply (moves_recordable a1).
    + rewrite (Hnew _ _ Ea1 Ha). unfold recordable. rewrite !elem_of_cons.
      tauto.
Qed.

(** X4. The status and progress on record for a job are always one of the
    seven pairs PENDING 0, GENERATING 10, DOWNLOADING 50, PROCESSING 70,
    PROCESSING 90, COMPLETED 100, FAILED 0; so the status UPLOADING of the
    enumeration is never recorded and progress stays between 0 and
    100. *)
Theorem recorded_pairs (evs : list event_loop) (s : server) (job_id : string)
    (j : Job.t) :
  exec evs boot = Some s → jobs_db (store s) !! job_id = Some j →
  (Job.status j, Job.progress j) ∈ recordable
  ∧ Job.status j ≠ UPLOADING
  ∧ (0 ≤ Job.progress j ≤ 100)%Z.
Proof.
  intros Hexec Hj.
  assert (H : (Job.status j, Job.progress j) ∈ recordable).
  { apply (exec_recordable evs s job_id); [done|].
    unfold recorded. by rewrite Hj. }
  split; [done|]. revert H. unfold recordable.
  rewrite !elem_of_cons, elem_of_nil.
  intros H. repeat destruct H as [H|H]; try done;
    injection H as -> ->; split; (done || lia).
Qed.

Lemma recorded_pairs_witness :
  ∃ j,
    exec run_download_fails boot = Some (after run_download_fails boot)
    ∧ jobs_db (store (after run_download_fails boot)) !! demo_job = Some j
    ∧ (Job.status j, Job.progress j) ∈ recordable
    ∧ Job.status j ≠ UPLOADING
    ∧ (0 ≤ Job.progress j ≤ 100)%Z.
Proof.
  assert (H : exec run_download_fails boot
              = Some (after run_download_fails boot)) by run_exec.
  eexists. split; [exact H|]. split; [vm_compute; reflexivity|].
  apply (recorded_pairs run_download_fails _ demo_job _ H).
  vm_compute; reflexivity.
Defined.

(** X5. The transition table the code implements: one event leaves the
    status and progress of a job as they are or takes them along one of
    PENDING 0 to GENERATING 10, GENERATING 10 to DOWNLOADING 50 or FAILED
    0, DOWNLOADING 50 to PROCESSING 70, PROCESSING 70 to PROCESSING 90 or
    FAILED 0, PROCESSING 90 to COMPLETED 100.  In particular no event
    takes a job from DOWNLOADING or from PROCESSING 90 to FAILED, and a
    job is never removed. *)
Theorem job_moves_along_table (evs : list event_loop) (s s' : server)
    (ev : event_loop) (job_id : string) (a : JobStatus * Z) :
  exec evs boot = Some s → step ev s = Some s' →
  recorded job_id (store s) = Some a →
  ∃ b, recorded job_id (store s') = Some b ∧ (b = a ∨ (a, b) ∈ moves).
Proof.
  intros Hexec Hstep Ha.
  destruct (step_staged ev s s' (exec_staged _ _ Hexec) Hstep)
    as (_ & _ & H & _).
  by apply H.
Qed.

Lemma job_moves_along_table_witness :
  exec demo_start boot = Some (after demo_start boot)
  ∧ step demo_generated (after demo_start boot)
    = Some (after [demo_generated] (after demo_start boot))
  ∧ recorded demo_job (store (after demo_start boot)) = Some (GENERATING, 10)
  ∧ ∃ b, recorded demo_job
           (store (after [demo_generated] (after demo_start boot))) = Some b
         ∧ (b = (GENERATING, 10) ∨ ((GENERATING, 10), b) ∈ moves).
Proof.
  assert (H1 : exec demo_start boot = Some (after demo_start boot))
    by run_exec.
  assert (H2 : step demo_generated (after demo_start boot)
               = Some (after [demo_generated] (after demo_start boot)))
    by (apply step_after; vm_compute; reflexivity).
  assert (H3 : recorded demo_job (store (after demo_start boot))
               = Some (GENERATING, 10)) by (vm_compute; reflexivity).
  split; [exact H1|]. split; [exact H2|]. split; [exact H3|].
  exact (job_moves_along_table demo_start _ _ demo_generated demo_job _
           H1 H2 H3).
Defined.

(** X6. The one exception that ever leaves a background task is the
    [SystemExit(1)] of [process_video]; the job of such a task shows
    PROCESSING 70.  A task that returned left its job COMPLETED 100 or
    FAILED 0. *)
Theorem task_end_and_record (evs : list event_loop) (s : server)
    (job_id : string) :
  exec evs boot = Some s →
  (∀ e, tasks s !! job_id = Some (Started (Propagated e)) →
        e = SystemExit 1
        ∧ recorded job_id (store s) = Some (PROCESSING, 70))
  ∧ (tasks s !! job_id = Some (Started Finished) →
     recorded job_id (store s) = Some (COMPLETED, 100)
     ∨ recorded job_id (store s) = Some (FAILED, 0)).
Proof.
  intros Hexec. destruct (exec_staged _ _ Hexec) as [Hstage _]. split.
  - intros e Ht. exact (Hstage _ _ Ht).
  - intros Ht. exact (Hstage _ _ Ht).
Qed.

Lemma task_end_and_record_witness :
  exec run_ffmpeg_fails boot = Some (after run_ffmpeg_fails boot)
  ∧ tasks (after run_ffmpeg_fails boot) !! demo_job
    = Some (Started (Propagated (SystemExit 1)))
  ∧ recorded demo_job (store (after run_ffmpeg_fails boot))
    = Some (PROCESSING, 70).
Proof.
  assert (H : exec run_ffmpeg_fails boot = Some (after run_ffmpeg_fails boot))
    by run_exec.
  split; [exact H|]. split; [vm_compute; reflexivity|].
  apply (proj1 (task_end_and_record run_ffmpeg_fails _ demo_job H)
           (SystemExit 1)).
  vm_compute; reflexivity.
Defined.

(** ** The request handlers *)

Section handler_facts.

Lemma path_join_nonempty dir name : path_join dir name ≠ "".
Proof. unfold path_join. destruct dir; done. Qed.

Lemma truthy_path_join dir name : truthy (Some (path_join dir name)) = true.
Proof. apply truthy_true. eexists. split; [done|]. apply path_join_nonempty. Qed.

(** The outcomes of [upload_keyframes]. *)
Lemma upload_keyframes_cases product_name start_frame end_frame uuid1 uuid2 σ
    (fs : gset string) :
  (types_allowed start_frame end_frame
   ∧ upload_keyframes product_name start_frame end_frame uuid1 uuid2 σ fs
     = (Ret product_name,
        save_database
          (set_keyframes_db
             (<[product_name :=
                  Keyframes.mk (Some (keyframe_path uuid1 start_frame))
                    (keyframe_path uuid2 <$> end_frame) (clock σ)]>
                (keyframes_db σ))
             (datetime_now σ).2),
        from_option (λ f, {[keyframe_path uuid2 f]}) ∅ end_frame
        ∪ ({[keyframe_path uuid1 start_frame]} ∪ fs)))
  ∨ (¬ types_allowed start_frame end_frame
     ∧ ∃ detail,
         upload_keyframes product_name start_frame end_frame uuid1 uuid2 σ fs
         = (Raise (HTTPException 500 detail), σ, fs)).
Proof.
  unfold upload_keyframes, types_allowed.
  case_bool_decide as Hs; simpl.
  - destruct end_frame as [f|]; simpl.
    + case_bool_decide as He; simpl.
      * left. split; [|done]. split; [done|]. by intros ? [= <-].
      * right. split; [|by eauto]. intros [_ H]. by apply He, H.
    + left. split; [|by rewrite (left_id_L ∅ (∪))]. split; [done|]. done.
  - right. split; [|by eauto]. by intros [H _].
Qed.

(** A request for a product registered with a start frame. *)
Lemma generate_video_registered (request : VideoGenerationRequest.t)
    (uuid start : string) (σ : Store) (kf : Keyframes.t) :
  keyframes_db σ !! VideoGenerationRequest.product_name request = Some kf →
  Keyframes.start_frame kf = Some start → start ≠ "" →
  ∃ σ',
    generate_video request uuid σ
    = (Ret uuid, σ',
       [Kwargs.mk uuid (VideoGenerationRequest.product_name request)
          (VideoGenerationRequest.prompt request)
          (VideoGenerationRequest.s3_bucket request) start
          (Keyframes.end_frame kf)
          (VideoGenerationRequest.settings request)])
    ∧ get_job_status uuid σ'
      = Ret (Job.mk uuid (VideoGenerationRequest.product_name request)
               PENDING 0 "Job created" (clock σ) (clock σ) None None)
    ∧ (∀ other, other ≠ uuid → jobs_db σ' !! other = jobs_db σ !! other)
    ∧ videos_db σ' = videos_db σ
    ∧ keyframes_db σ' = keyframes_db σ
    ∧ in_sync σ'.
Proof.
  intros Hkf Hstart Hne. unfold generate_video. rewrite Hkf, Hstart.
  assert (Ht : truthy (Some start) = true) by (apply truthy_true; eauto).
  rewrite Ht. simpl. eexists. split; [reflexivity|]. split_and!; try done.
  - unfold get_job_status. simpl. by rewrite lookup_insert_eq.
  - intros other Hother. simpl. by apply lookup_insert_ne.
Qed.

(** What a successful upload leaves behind. *)
Lemma upload_keyframes_stored (product_name : string)
    (start_frame : UploadFile.t) (end_frame : option UploadFile.t)
    (uuid1 uuid2 : string) (σ σ' : Store) (fs fs' : gset string) (r : string) :
  upload_keyframes product_name start_frame end_frame uuid1 uuid2 σ fs
  = (Ret r, σ', fs') →
  keyframes_db σ' !! product_name
  = Some (Keyframes.mk (Some (keyframe_path uuid1 start_frame))
            (keyframe_path uuid2 <$> end_frame) (clock σ))
  ∧ (∀ other, other ≠ product_name →
              keyframes_db σ' !! other = keyframes_db σ !! other)
  ∧ fs ⊆ fs'
  ∧ keyframe_path uuid1 start_frame ∈ fs'
  ∧ (∀ f, end_frame = Some f → keyframe_path uuid2 f ∈ fs')
  ∧ in_sync σ'.
Proof.
  destruct (upload_keyframes_cases product_name start_frame end_frame
              uuid1 uuid2 σ fs) as [[Hok ->]|[Hbad (detail & ->)]]; [|done].
  intros [= <- <- <-]. cbn [keyframes_db save_database set_keyframes_db
    datetime_now fst snd]. split_and!.
  - apply lookup_insert_eq.
  - intros other Hne. by apply lookup_insert_ne.
  - apply union_subseteq_r', union_subseteq_r.
  - apply elem_of_union_r, elem_of_union_l. by apply elem_of_singleton.
  - intros f ->. apply elem_of_union_l. by apply elem_of_singleton.
  - done.
Qed.

End handler_facts.




(** X9. [generate_video] answers with the new job id, or with status 400;
    it creates the job exactly when the product is registered with a
    non-empty start frame path.  It never answers 500, and when it raises
    it leaves the store as it was and schedules nothing. *)
Theorem generate_video_answers (request : VideoGenerationRequest.t)
    (uuid : string) (σ : Store) :
  let res := generate_video request uuid σ in
  let registered :=
    ∃ kf, keyframes_db σ !! VideoGenerationRequest.product_name request
          = Some kf
          ∧ truthy (Keyframes.start_frame kf) = true in
  (registered ↔ res.1.1 = Ret uuid)
  ∧ (¬ registered →
     (∃ detail, res.1.1 = Raise (HTTPException 400 detail))
     ∧ res.1.2 = σ ∧ res.2 = []).
Proof.
  cbv zeta. unfold generate_video.
  destruct (keyframes_db σ !! _) as [kf|]; simpl.
  - destruct (truthy (Keyframes.start_frame kf)) eqn:E; simpl.
    + split; [split; [done|by eauto]|]. intros []. eauto.
    + split; [split; [|done]|by eauto]. intros (? & [= <-] & ?). congruence.
  - split; [split; [|done]|by eauto]. by intros (? & ? & _).
Qed.



(** X11. Upload, then generate: after a successful upload for a product,
    a request for that product is accepted, and the frame paths handed to
    the background task are files that exist, the end frame being handed
    on exactly when one was uploaded. *)
Theorem upload_then_generate (request : VideoGenerationRequest.t)
    (start_frame : UploadFile.t) (end_frame : option UploadFile.t)
    (uuid1 uuid2 uuid r : string) (σ σ1 : Store) (fs fs1 : gset string) :
  upload_keyframes (VideoGenerationRequest.product_name request) start_frame
    end_frame uuid1 uuid2 σ fs = (Ret r, σ1, fs1) →
  ∃ σ2 kw,
    generate_video request uuid σ1 = (Ret uuid, σ2, [kw])
    ∧ Kwargs.job_id kw = uuid
    ∧ Kwargs.start_frame_path kw = keyframe_path uuid1 start_frame
    ∧ Kwargs.start_frame_path kw ∈ fs1
    ∧ Kwargs.end_frame_path kw = keyframe_path uuid2 <$> end_frame
    ∧ (∀ p, Kwargs.end_frame_path kw = Some p → p ∈ fs1).
Proof.
  intros Hup.
  destruct (upload_keyframes_stored _ _ _ _ _ _ _ _ _ _ Hup)
    as (Hkf & _ & _ & Hs & He & _).
  destruct (generate_video_registered request uuid
              (keyframe_path uuid1 start_frame) σ1 _ Hkf eq_refl)
    as (σ2 & Hg & _); [apply path_join_nonempty|].
  do 2 eexists. split; [exact Hg|]. simpl. split_and!; try done.
  intros p. destruct end_frame as [f|]; [|done]. intros [= <-]. by apply He.
Qed.

Lemma upload_then_generate_witness :
  ∃ σ1 fs1 σ2 kw,
    upload_keyframes "watch" png_file (Some png_file) "kf-1" "kf-2"
      empty_store ∅ = (Ret "watch", σ1, fs1)
    ∧ generate_video (request_for "watch") "job-1" σ1 = (Ret "job-1", σ2, [kw])
    ∧ Kwargs.start_frame_path kw = "/app/data/keyframes/kf-1.png"
    ∧ Kwargs.end_frame_path kw = Some "/app/data/keyframes/kf-2.png".
Proof.
  pose (res := upload_keyframes "watch" png_file (Some png_file) "kf-1" "kf-2"
                 empty_store ∅).
  assert (Hr : res.1.1 = Ret "watch") by (vm_compute; reflexivity).
  assert (H : res = (Ret "watch", res.1.2, res.2))
    by (rewrite <- Hr; by destruct res as [[? ?] ?]).
  destruct (upload_then_generate (request_for "watch") png_file
              (Some png_file) "kf-1" "kf-2" "job-1" "watch" empty_store
              res.1.2 ∅ res.2 H) as (σ2 & kw & Hg & _ & Hs & _ & He & _).
  exists res.1.2, res.2, σ2, kw. split; [exact H|]. split; [exact Hg|].
  split; [exact Hs|exact He].
Defined.

(** X12. Deleting a video a second time: whatever the first
    [delete_video] of a recorded video answered (success, or 500 because
    a file could not be unlinked), a second [delete_video] and any
    [download_final_video] of the same id answer 404 "Video not found",
    and the second delete changes nothing. *)
Theorem delete_video_then_not_found (video_id : string)
    (refuses refuses' : string → option string) (original : bool)
    (σ σ' : Store) (fs fs' : gset string) (v : Video.t) (r : outcome string) :
  videos_db σ !! video_id = Some v →
  delete_video video_id refuses σ fs = (r, σ', fs') →
  delete_video video_id refuses' σ' fs'
  = (Raise (HTTPException 404 "Video not found"), σ', fs')
  ∧ download_final_video video_id original σ' fs'
    = Raise (HTTPException 404 "Video not found").
Proof.
  intros Hv. unfold delete_video at 1. rewrite Hv.
  destruct (unlink_existing _ refuses fs) as [[[]|e] fs1];
    intros [= <- <- <-];
    unfold delete_video, download_final_video; simpl;
    by rewrite lookup_delete_eq.
Qed.

Lemma delete_video_then_not_found_witness :
  ∃ v r σ' fs',
    videos_db (store (after demo_run boot)) !! demo_job = Some v
    ∧ delete_video demo_job never_refuses (store (after demo_run boot))
        (fs (after demo_run boot)) = (r, σ', fs')
    ∧ delete_video demo_job never_refuses σ' fs'
      = (Raise (HTTPException 404 "Video not found"), σ', fs').
Proof.
  pose (res := delete_video demo_job never_refuses (store (after demo_run boot))
                 (fs (after demo_run boot))).
  assert (H : res = (res.1.1, res.1.2, res.2)) by by destruct res as [[? ?] ?].
  assert (Hv : ∃ v, videos_db (store (after demo_run boot)) !! demo_job
                    = Some v) by (eexists; vm_compute; reflexivity).
  destruct Hv as [v Hv]. exists v, res.1.1, res.1.2, res.2.
  split; [exact Hv|]. split; [exact H|].
  exact (proj1 (delete_video_then_not_found demo_job never_refuses
                  never_refuses false (store (after demo_run boot)) res.1.2
                  (fs (after demo_run boot)) res.2 v res.1.1 Hv H)).
Defined.

(** X13. Upload, then fetch: after a successful upload for a product,
    [get_keyframe] answers "start" with the stored start frame file,
    answers "end" with the stored end frame file if one was uploaded and
    with 404 otherwise, and answers any other frame type with 400. *)
Theorem upload_then_get_keyframe (product_name frame_type : string)
    (start_frame : UploadFile.t) (end_frame : option UploadFile.t)
    (uuid1 uuid2 r : string) (σ σ' : Store) (fs fs' : gset string) :
  upload_keyframes product_name start_frame end_frame uuid1 uuid2 σ fs
  = (Ret r, σ', fs') →
  get_keyframe product_name "start" σ' fs'
  = Ret (FileResponse.mk (keyframe_path uuid1 start_frame)
           ("image/" +:+ path_suffix_tail (keyframe_path uuid1 start_frame))
           None)
  ∧ get_keyframe product_name "end" σ' fs'
    = match end_frame with
      | Some f =>
          Ret (FileResponse.mk (keyframe_path uuid2 f)
                 ("image/" +:+ path_suffix_tail (keyframe_path uuid2 f)) None)
      | None =>
          Raise (HTTPException 404
                   ("No end frame found for product: " +:+ product_name))
      end
  ∧ (frame_type ≠ "start" → frame_type ≠ "end" →
     get_keyframe product_name frame_type σ' fs'
     = Raise (HTTPException 400 "Invalid frame type. Use 'start' or 'end'")).
Proof.
  intros Hup.
  destruct (upload_keyframes_stored _ _ _ _ _ _ _ _ _ _ Hup)
    as (Hkf & _ & _ & Hs & He & _).
  unfold get_keyframe. rewrite Hkf. split_and!.
  - cbn [bool_decide negb String.eqb Keyframes.start_frame default].
    rewrite bool_decide_eq_true_2 by (rewrite !elem_of_cons; auto).
    cbn [negb String.eqb Ascii.eqb Bool.eqb Keyframes.start_frame].
    unfold keyframe_path at 1. rewrite truthy_path_join. cbn [negb default].
    fold (keyframe_path uuid1 start_frame).
    by rewrite (bool_decide_eq_true_2 _ Hs).
  - rewrite bool_decide_eq_true_2 by (rewrite !elem_of_cons; auto).
    cbn [negb String.eqb Ascii.eqb Bool.eqb Keyframes.end_frame].
    destruct end_frame as [f|]; cbn [fmap option_fmap option_map]; [|done].
    unfold keyframe_path at 1. rewrite truthy_path_join. cbn [negb default].
    fold (keyframe_path uuid2 f).
    by rewrite (bool_decide_eq_true_2 _ (He f eq_refl)).
  - intros Hns Hne. rewrite bool_decide_eq_false_2; [done|].
    rewrite !elem_of_cons, elem_of_nil. tauto.
Qed.

Lemma upload_then_get_keyframe_witness :
  ∃ σ' fs',
    upload_keyframes "watch" png_file None "kf-1" "kf-2" empty_store ∅
    = (Ret "watch", σ', fs')
    ∧ get_keyframe "watch" "start" σ' fs'
      = Ret (FileResponse.mk "/app/data/keyframes/kf-1.png" "image/png" None)
    ∧ get_keyframe "watch" "end" σ' fs'
      = Raise (HTTPException 404 "No end frame found for product: watch").
Proof.
  pose (res := upload_keyframes "watch" png_file None "kf-1" "kf-2"
                 empty_store ∅).
  assert (Hr : res.1.1 = Ret "watch") by (vm_compute; reflexivity).
  assert (H : res = (Ret "watch", res.1.2, res.2))
    by (rewrite <- Hr; by destruct res as [[? ?] ?]).
  destruct (upload_then_get_keyframe "watch" "middle" png_file None "kf-1"
              "kf-2" "watch" empty_store res.1.2 ∅ res.2 H) as (Hs & He & _).
  exists res.1.2, res.2. split; [exact H|]. split; [exact Hs|exact He].
Defined.

(** ** process_video.py *)

Section process_video_facts.

Lemma append_inj_l s a b : s +:+ a = s +:+ b → a = b.
Proof. induction s as [|c s IH]; simpl; [done|]. intros [= H]. by apply IH. Qed.

Lemma path_join_inj dir a b : path_join dir a = path_join dir b → a = b.
Proof. unfold path_join. intros H%append_inj_l. by injection H. Qed.

Lemma has_slash_path_join dir name : has_slash (path_join dir name) = true.
Proof.
  unfold has_slash, path_join. apply bool_decide_eq_true_2.
  induction dir as [|c dir IH]; simpl.
  - by left.
  - by right.
Qed.

Lemma path_join_not_list_file dir name : path_join dir name ≠ "list.txt".
Proof.
  intros H. pose proof (has_slash_path_join dir name) as Hs.
  rewrite H in Hs. done.
Qed.

(** The five files of [process_video] are different files. *)
Lemma process_video_files_distinct video_name base_dir :
  input_file video_name base_dir ≠ reversed_file video_name base_dir
  ∧ input_file video_name base_dir ≠ combined_file video_name base_dir
  ∧ input_file video_name base_dir ≠ final_file video_name base_dir
  ∧ input_file video_name base_dir ≠ "list.txt"
  ∧ final_file video_name base_dir ≠ reversed_file video_name base_dir
  ∧ final_file video_name base_dir ≠ combined_file video_name base_dir
  ∧ final_file video_name base_dir ≠ "list.txt".
Proof.
  unfold input_file, reversed_file, combined_file, final_file.
  split_and!;
    try apply path_join_not_list_file;
    intros H%path_join_inj%append_inj_l; done.
Qed.

(** [process_video] in terms of its files. *)
Lemma process_video_unfold video_name base_dir ffmpeg (fs : gset string) :
  process_video video_name base_dir ffmpeg fs
  = if negb (bool_decide (input_file video_name base_dir ∈ fs)) then
      (Raise (Exception ("Error: " +:+ input_file video_name base_dir
                         +:+ " not found")), fs)
    else
      match Ffmpeg.reverse ffmpeg, Ffmpeg.write_list ffmpeg,
            Ffmpeg.concat ffmpeg, Ffmpeg.setpts ffmpeg with
      | Some _, _, _, _ => (Raise (SystemExit 1), fs)
      | None, Some _, _, _ =>
          (Raise (SystemExit 1), {[reversed_file video_name base_dir]} ∪ fs)
      | None, None, Some _, _ =>
          (Raise (SystemExit 1),
           {["list.txt"]} ∪ ({[reversed_file video_name base_dir]} ∪ fs))
      | None, None, None, Some _ =>
          (Raise (SystemExit 1),
           {[combined_file video_name base_dir]}
           ∪ ({["list.txt"]} ∪ ({[reversed_file video_name base_dir]} ∪ fs)))
      | None, None, None, None =>
          (Ret tt,
           ({[final_file video_name base_dir]}
            ∪ ({[combined_file video_name base_dir]}
               ∪ ({["list.txt"]}
                  ∪ ({[reversed_file video_name base_dir]} ∪ fs))))
           ∖ {[reversed_file video_name base_dir]}
           ∖ {[combined_file video_name base_dir]} ∖ {["list.txt"]})
      end.
Proof.
  unfold process_video.
  fold (input_file video_name base_dir) (reversed_file video_name base_dir)
    (combined_file video_name base_dir) (final_file video_name base_dir).
  destruct (negb _); [done|].
  by destruct ffmpeg as [[?|] [?|] [?|] [?|]].
Qed.

End process_video_facts.




(** ** From the download to the finished video *)

Section finishing_facts.

Lemma resume_step s job_id c k o r (fs' : gset string) :
  tasks s !! job_id = Some (Started (Await c k)) →
  to_thread c o (fs s) = Some (r, fs') →
  step (Task_resumes job_id o) s
  = Some (mkServer (k r (store s)).1 fs'
            (<[job_id := Started (k r (store s)).2]> (tasks s))).
Proof.
  intros Ht Ho. cbn [step]. rewrite Ht, Ho. by destruct (k r (store s)).
Qed.

Lemma process_video_ok video_name base_dir (fs : gset string) :
  input_file video_name base_dir ∈ fs →
  ∃ fs', process_video video_name base_dir Ffmpeg.ok fs = (Ret tt, fs')
         ∧ input_file video_name base_dir ∈ fs'
         ∧ final_file video_name base_dir ∈ fs'.
Proof.
  intros Hin. rewrite process_video_unfold.
  rewrite (bool_decide_eq_true_2 _ Hin). cbn [negb Ffmpeg.ok Ffmpeg.reverse
    Ffmpeg.write_list Ffmpeg.concat Ffmpeg.setpts].
  destruct (process_video_files_distinct video_name base_dir)
    as (Hir & Hic & Hif & Hil & Hfr & Hfc & Hfl).
  eexists. split; [done|].
  generalize dependent (input_file video_name base_dir).
  generalize dependent (final_file video_name base_dir).
  generalize dependent (reversed_file video_name base_dir).
  generalize dependent (combined_file video_name base_dir).
  intros combined reversed final Hfr Hfc Hfl input Hin Hir Hic Hif Hil.
  split; set_solver.
Qed.

(** The video record a finishing upload step writes. *)
Lemma after_upload_video kw output_path final_video_path uploaded σ j :
  jobs_db σ !! Kwargs.job_id kw = Some j →
  (after_upload kw output_path final_video_path (Ret uploaded) σ).2 = Finished
  ∧ recorded (Kwargs.job_id kw)
      (after_upload kw output_path final_video_path (Ret uploaded) σ).1
    = Some (COMPLETED, 100)
  ∧ videos_db (after_upload kw output_path final_video_path (Ret uploaded) σ).1
      !! Kwargs.job_id kw
    = Some (Video.mk (Kwargs.job_id kw) (Kwargs.product_name kw)
              (Kwargs.prompt kw) "completed" (Job.created_at j)
              final_video_path output_path (Kwargs.start_frame_path kw)
              (Kwargs.end_frame_path kw) (Kwargs.job_id kw) uploaded).
Proof.
  intros Hj. unfold after_upload. rewrite Hj.
  set (j1 := Job.mk _ _ _ _ _ _ _ _ _).
  set (σ1 := set_jobs_db _ _).
  assert (Hj1 : jobs_db σ1 !! Kwargs.job_id kw = Some j1)
    by apply lookup_insert_eq.
  rewrite (update_job_lookup _ _ _ _ _ _ _ Hj1). split_and!.
  - done.
  - unfold recorded. simpl. by rewrite (update_job_lookup _ _ _ _ _ _ _ Hj1).
  - simpl. by rewrite lookup_insert_eq.
Qed.

End finishing_facts.

(** X16. From the download to the download: in any state of a run in
    which a job shows DOWNLOADING 50, if its download and its processing
    go through, then after the upload step, whether the upload worked or
    not, the job is COMPLETED 100 and has a video record under its id;
    [download_final_video] answers with the final file, and with
    [original] set with the downloaded file, both of which exist; the
    record's [s3_uri] is set exactly when the upload worked. *)
Theorem finished_video_can_be_downloaded (evs : list event_loop) (s : server)
    (job_id : string) (s3_up : S3.transfer) :
  exec evs boot = Some s →
  recorded job_id (store s) = Some (DOWNLOADING, 50) →
  ∃ s' v,
    exec (finishing_events job_id s3_up) s = Some s'
    ∧ recorded job_id (store s') = Some (COMPLETED, 100)
    ∧ videos_db (store s') !! job_id = Some v
    ∧ download_final_video job_id false (store s') (fs s')
      = Ret (FileResponse.mk (Video.final_video_path v) "video/mp4"
               (Some (Video.product_name v +:+ "_final.mp4")))
    ∧ download_final_video job_id true (store s') (fs s')
      = Ret (FileResponse.mk (Video.original_video_path v) "video/mp4"
               (Some (Video.product_name v +:+ ".mp4")))
    ∧ (is_Some (Video.s3_uri v) ↔ s3_up = None).
Proof.
  intros Hexec Hrec.
  destruct (exec_staged _ _ Hexec) as [Hstage Htask].
  destruct (Htask job_id (recorded_is_Some _ _ _ Hrec)) as [t Ht].
  pose proof (Hstage _ _ Ht) as Hts.
  destruct t as [kw|[c k| |e]]; simpl in Hts.
  { destruct Hts as [_ H]. congruence. }
  2:{ destruct Hts as [H|H]; congruence. }
  2:{ destruct Hts as [_ H]. congruence. }
  destruct Hts as (kw & status & progress & Hkw & Hk & Hrec').
  assert (status = DOWNLOADING ∧ progress = 50) as [-> ->]
    by (split; congruence).
  inversion Hk as [|s3_uri| |]; subst c k. subst job_id. clear Hk Hrec'.
  (* the download *)
  assert (Ho1 : to_thread (To_download_from_s3 s3_uri (output_path_of kw))
                  (S3_does None) (fs s)
                = Some (Ret (Some (output_path_of kw)),
                        {[output_path_of kw]} ∪ fs s)) by done.
  pose proof (resume_step s _ _ _ _ _ _ Ht Ho1) as Hstep1.
  set (σ1 := update_job (Kwargs.job_id kw) PROCESSING 70
               "Applying boomerang effect..." None (store s)).
  set (k2 := after_process kw (output_path_of kw) (video_base_name_of kw)).
  set (s1 := mkServer σ1 ({[output_path_of kw]} ∪ fs s)
               (<[Kwargs.job_id kw :=
                    Started (Await (To_process_video (video_base_name_of kw)
                                      VIDEOS_DIR) k2)]> (tasks s))).
  change (step (Task_resumes (Kwargs.job_id kw) (S3_does None)) s = Some s1)
    in Hstep1.
  (* the processing *)
  destruct (process_video_ok (video_base_name_of kw) VIDEOS_DIR
              ({[output_path_of kw]} ∪ fs s))
    as (fs2 & Hp & Hin2 & Hfin2).
  { apply elem_of_union_l. by apply elem_of_singleton. }
  assert (Ht1 : tasks s1 !! Kwargs.job_id kw
                = Some (Started (Await (To_process_video (video_base_name_of kw)
                                          VIDEOS_DIR) k2)))
    by apply lookup_insert_eq.
  assert (Ho2 : to_thread (To_process_video (video_base_name_of kw) VIDEOS_DIR)
                  (Ffmpeg_does Ffmpeg.ok) (fs s1) = Some (Ret None, fs2)).
  { cbn [to_thread fs s1]. by rewrite Hp. }
  pose proof (resume_step s1 _ _ _ _ _ _ Ht1 Ho2) as Hstep2.
  set (σ2 := (k2 (Ret None) (store s1)).1) in Hstep2.
  set (c2 := (k2 (Ret None) (store s1)).2) in Hstep2.
  set (s2 := mkServer σ2 fs2 (<[Kwargs.job_id kw := Started c2]> (tasks s1)))
    in Hstep2.
  (* the upload *)
  set (uploaded :=
         upload_to_s3 (final_video_path_of kw)
           ("s3://" +:+ Kwargs.s3_bucket kw +:+ "/" +:+ "product-videos/"
            +:+ Kwargs.product_name kw +:+ "/"
            +:+ pretty
                  (clock
                     (update_job (Kwargs.job_id kw) PROCESSING 90
                        "Uploading final video to S3..." None σ1))
            +:+ "/" +:+ video_base_name_of kw +:+ "_final.mp4")
           (VideoSettings.region (Kwargs.settings kw)) s3_up fs2).
  set (k3 := after_upload kw (output_path_of kw) (final_video_path_of kw)).
  assert (Ht2 : ∃ c, tasks s2 !! Kwargs.job_id kw = Some (Started (Await c k3))
                     ∧ to_thread c (S3_does s3_up) (fs s2)
                       = Some (Ret uploaded, fs2)).
  { eexists. split; [apply lookup_insert_eq|done]. }
  destruct Ht2 as (c3 & Ht2 & Ho3).
  pose proof (resume_step s2 _ _ _ _ _ _ Ht2 Ho3) as Hstep3.
  assert (Hjob2 : is_Some (jobs_db (store s2) !! Kwargs.job_id kw)).
  { apply (update_job_is_Some (Kwargs.job_id kw) PROCESSING 90
             "Uploading final video to S3..." None σ1).
    apply update_job_is_Some. by apply (recorded_is_Some _ _ _ Hrec). }
  destruct Hjob2 as [j2 Hj2].
  destruct (after_upload_video kw (output_path_of kw) (final_video_path_of kw)
              uploaded (store s2) j2 Hj2) as (Hfin & Hrec3 & Hvid3).
  fold k3 in Hfin, Hrec3, Hvid3.
  eexists. eexists.
  split.
  { unfold finishing_events, exec. cbn [foldl mbind option_bind].
    rewrite Hstep1. cbn [mbind option_bind]. rewrite Hstep2.
    cbn [mbind option_bind]. exact Hstep3. }
  cbn [store fs]. split; [exact Hrec3|]. split; [exact Hvid3|].
  unfold download_final_video. rewrite Hvid3.
  cbn [Video.final_video_path Video.original_video_path Video.product_name
       Video.s3_uri negb].
  assert (Hf : final_video_path_of kw ∈ fs2) by exact Hfin2.
  assert (Hi : output_path_of kw ∈ fs2) by exact Hin2.
  rewrite (bool_decide_eq_true_2 _ Hf), (bool_decide_eq_true_2 _ Hi).
  split; [done|]. split; [done|].
  unfold uploaded, upload_to_s3. rewrite (bool_decide_eq_true_2 _ Hf).
  cbn [negb]. destruct s3_up; split; try done; by intros [? [=]].
Qed.

Lemma finished_video_can_be_downloaded_witness :
  exec (demo_start ++ [demo_generated]) boot
  = Some (after (demo_start ++ [demo_generated]) boot)
  ∧ recorded demo_job (store (after (demo_start ++ [demo_generated]) boot))
    = Some (DOWNLOADING, 50)
  ∧ ∃ s' v,
      exec (finishing_events demo_job (Some "An error occurred (AccessDenied)"))
        (after (demo_start ++ [demo_generated]) boot) = Some s'
      ∧ recorded demo_job (store s') = Some (COMPLETED, 100)
      ∧ videos_db (store s') !! demo_job = Some v
      ∧ Video.s3_uri v = None.
Proof.
  assert (H1 : exec (demo_start ++ [demo_generated]) boot
               = Some (after (demo_start ++ [demo_generated]) boot))
    by run_exec.
  assert (H2 : recorded demo_job
                 (store (after (demo_start ++ [demo_generated]) boot))
               = Some (DOWNLOADING, 50)) by (vm_compute; reflexivity).
  split; [exact H1|]. split; [exact H2|].
  destruct (finished_video_can_be_downloaded (demo_start ++ [demo_generated])
              _ demo_job (Some "An error occurred (AccessDenied)") H1 H2)
    as (s' & v & He & Hr & Hv & _ & _ & Hs).
  exists s', v. split; [exact He|]. split; [exact Hr|]. split; [exact Hv|].
  destruct (Video.s3_uri v) as [u|]; [|reflexivity].
  pose proof (proj1 Hs (ex_intro _ u eq_refl)) as Hd. discriminate Hd.
Defined.

(** ** generate_video_with_keyframes.py: what a returned URI means *)

Section generate_facts.

(** A URI returned by the loop is the declared output location of a
    [Completed] reply before which no reply ended the loop. *)
Lemma monitor_returns_declared arn last replies u :
  (monitor arn last replies).2 = Returned (Some u) →
  ∃ pre r post a,
    replies = pre ++ r :: post ∧ Forall keeps_polling pre
    ∧ Bedrock.answer r = Answers a ∧ Bedrock.status a = "Completed"
    ∧ Bedrock.s3Uri a = Some u.
Proof.
  revert last. induction replies as [|r replies IH]; intros last; [done|].
  destruct (reply_cases r)
    as [(msg & Ha & He)|[(a & Ha & Hs & He)|[(a & Ha & Hs & He)|(a & Ha & He)]]].
  - by rewrite (monitor_fails _ _ _ _ _ Ha).
  - rewrite (monitor_completed _ _ _ _ _ Ha Hs). simpl. intros [= Hu].
    exists [], r, replies, a. split_and!; first [done|constructor].
  - by rewrite (monitor_failed _ _ _ _ _ Ha Hs).
  - rewrite (monitor_continues _ _ _ _ _ Ha He). simpl.
    intros (pre & r' & post & a' & -> & Hpre & H)%IH.
    exists (r :: pre), r', post, a'.
    destruct H as (Ha' & Hs' & Hu').
    split; [done|]. split; [by constructor|]. by split_and!.
Qed.

End generate_facts.

(** X17. [generate_video_with_keyframes] returns a URI only if the start
    frame file exists, the end frame file exists when a non-empty end
    frame path is given, Bedrock accepted the invocation, and the first
    reply that ended the polling had status [Completed] and declared
    exactly that URI.  When the start frame file is missing, Bedrock is
    never queried and the result is [None]. *)
Theorem generated_uri_is_declared
    (product_name prompt s3_bucket start_frame_path : string)
    (end_frame_path : option string)
    (aspect_ratio duration resolution : string) (loop : bool) (region : string)
    (bedrock : Bedrock.t) (fs : gset string) :
  let res :=
    generate_video_with_keyframes product_name prompt s3_bucket
      start_frame_path end_frame_path aspect_ratio duration resolution loop
      region bedrock fs in
  (∀ u, res.2 = Returned (Some u) →
        start_frame_path ∈ fs
        ∧ (truthy end_frame_path = true → default "" end_frame_path ∈ fs)
        ∧ ∃ arn pre r post a,
            Bedrock.start_async_invoke bedrock = Answers arn
            ∧ Bedrock.get_async_invoke bedrock = pre ++ r :: post
            ∧ Forall keeps_polling pre
            ∧ Bedrock.answer r = Answers a
            ∧ Bedrock.status a = "Completed"
            ∧ Bedrock.s3Uri a = Some u)
  ∧ (start_frame_path ∉ fs → res.2 = Returned None ∧ queries res.1 = []).
Proof.
  cbv zeta. unfold generate_video_with_keyframes.
  case_bool_decide as Hs; cbn [negb]; [|by split].
  split; [|done]. intros u.
  destruct (truthy end_frame_path) eqn:Ht; cbn [andb].
  - case_bool_decide as He; cbn [negb]; [|done].
    destruct (Bedrock.start_async_invoke bedrock) as [arn|msg]; [|done].
    intros (pre & r & post & a & H)%monitor_returns_declared.
    split; [done|]. split; [done|]. by exists arn, pre, r, post, a.
  - destruct (Bedrock.start_async_invoke bedrock) as [arn|msg]; [|done].
    intros (pre & r & post & a & H)%monitor_returns_declared.
    split; [done|]. split; [done|]. by exists arn, pre, r, post, a.
Qed.

(** ** download_from_s3.py: listing the videos of a bucket *)

Section listing_facts.

Lemma endswith_spec s suffix :
  endswith s suffix = true ↔ ∃ stem, s = stem +:+ suffix.
Proof.
  induction s as [|c s IH]; cbn [endswith].
  - rewrite orb_false_r, String.eqb_eq. split.
    + intros <-. by exists "".
    + intros [[|??] H]; simpl in H; [done|discriminate].
  - rewrite orb_true_iff, String.eqb_eq, IH. split.
    + intros [<-|[stem ->]]; [by exists ""|]. by exists (String c stem).
    + intros [[|c' stem] H]; simpl in H.
      * by left.
      * injection H as <- ->. right. by eexists.
Qed.

Lemma insert_newest_perm v vs : insert_newest v vs ≡ₚ v :: vs.
Proof.
  induction vs as [|w ws IH]; [done|]. simpl.
  destruct (_ <=? _)%Z; [done|]. by rewrite IH, Permutation_swap.
Qed.

Lemma sort_newest_first_perm vs : sort_newest_first vs ≡ₚ vs.
Proof.
  induction vs as [|v vs IH]; [done|]. simpl.
  by rewrite insert_newest_perm, IH.
Qed.

Lemma insert_newest_sorted v vs :
  StronglySorted newer_or_same vs →
  StronglySorted newer_or_same (insert_newest v vs).
Proof.
  induction 1 as [|w ws Hws IH Hw]; simpl.
  - repeat constructor.
  - destruct (_ <=? _)%Z eqn:E.
    + apply Z.leb_le in E. constructor; [by constructor|].
      constructor; [done|].
      eapply Forall_impl; [exact Hw|]. unfold newer_or_same. intros; lia.
    + apply Z.leb_gt in E. constructor; [done|].
      rewrite insert_newest_perm. constructor; [|done].
      unfold newer_or_same. lia.
Qed.

Lemma sort_newest_first_sorted vs :
  StronglySorted newer_or_same (sort_newest_first vs).
Proof.
  induction vs as [|v vs IH]; simpl; [constructor|].
  by apply insert_newest_sorted.
Qed.

(** The sort is stable: the entries of one modification time keep the
    order they came in. *)
Lemma insert_newest_stable m v vs :
  StronglySorted newer_or_same vs →
  filter (λ w, VideoEntry.modified w = m) (insert_newest v vs)
  = filter (λ w, VideoEntry.modified w = m) (v :: vs).
Proof.
  induction 1 as [|w ws Hws IH Hw]; [done|]. simpl.
  destruct (_ <=? _)%Z eqn:E; [done|]. apply Z.leb_gt in E.
  rewrite !filter_cons in *.
  destruct (decide (VideoEntry.modified v = m)) as [Hv|Hv];
    destruct (decide (VideoEntry.modified w = m)) as [Hw'|Hw'];
    try (by rewrite IH); try lia.
Qed.

Lemma sort_newest_first_stable m vs :
  filter (λ w, VideoEntry.modified w = m) (sort_newest_first vs)
  = filter (λ w, VideoEntry.modified w = m) vs.
Proof.
  induction vs as [|v vs IH]; [done|]. simpl.
  rewrite insert_newest_stable by apply sort_newest_first_sorted.
  by rewrite !filter_cons, IH.
Qed.

Lemma page_videos_spec s3_bucket page v :
  v ∈ page_videos s3_bucket page ↔
  ∃ contents obj stem,
    page = Some contents ∧ obj ∈ contents
    ∧ S3Object.Key obj = stem +:+ ".mp4"
    ∧ v = VideoEntry.mk ("s3://" +:+ s3_bucket +:+ "/" +:+ S3Object.Key obj)
            (S3Object.Key obj) (S3Object.Size obj) (S3Object.LastModified obj).
Proof.
  destruct page as [contents|]; simpl.
  - rewrite list_elem_of_omap. split.
    + intros (obj & Hobj & H).
      destruct (endswith (S3Object.Key obj) ".mp4") eqn:E; [|done].
      apply endswith_spec in E as [stem E]. injection H as <-.
      by exists contents, obj, stem.
    + intros (? & obj & stem & [= <-] & Hobj & Hk & ->).
      exists obj. split; [done|].
      assert (E : endswith (S3Object.Key obj) ".mp4" = true)
        by (apply endswith_spec; eauto).
      by rewrite E.
  - rewrite elem_of_nil. split; [done|]. by intros (? & ? & ? & [=] & _).
Qed.

End listing_facts.

(** X18. [list_videos_in_bucket] lists exactly the objects of all pages
    whose key ends in [.mp4], each once per occurrence and with the URI
    [s3://<bucket>/<key>]; pages without [Contents] add nothing.  The list
    is sorted newest first, and entries modified at the same time keep
    the order in which the pages gave them.  When boto3 raises, the list
    is empty. *)
Theorem list_videos_newest_first (s3_bucket prefix : string)
    (pages : list (option (list S3Object.t))) :
  let videos := list_videos_in_bucket s3_bucket prefix (Answers pages) in
  (∀ v, v ∈ videos ↔
        ∃ contents obj stem,
          Some contents ∈ pages ∧ obj ∈ contents
          ∧ S3Object.Key obj = stem +:+ ".mp4"
          ∧ v = VideoEntry.mk
                  ("s3://" +:+ s3_bucket +:+ "/" +:+ S3Object.Key obj)
                  (S3Object.Key obj) (S3Object.Size obj)
                  (S3Object.LastModified obj))
  ∧ videos ≡ₚ mjoin (page_videos s3_bucket <$> pages)
  ∧ StronglySorted newer_or_same videos
  ∧ (∀ m, filter (λ w, VideoEntry.modified w = m) videos
          = filter (λ w, VideoEntry.modified w = m)
              (mjoin (page_videos s3_bucket <$> pages)))
  ∧ (∀ msg, list_videos_in_bucket s3_bucket prefix (Fails msg) = []).
Proof.
  cbv zeta. unfold list_videos_in_bucket. split_and!.
  - intros v. rewrite sort_newest_first_perm, list_elem_of_join. split.
    + intros (l & Hv & (page & -> & Hpage)%list_elem_of_fmap).
      apply page_videos_spec in Hv
        as (contents & obj & stem & -> & Hobj & Hk & ->).
      by exists contents, obj, stem.
    + intros (contents & obj & stem & Hpage & Hobj & Hk & ->).
      exists (page_videos s3_bucket (Some contents)). split.
      * apply page_videos_spec. by exists contents, obj, stem.
      * apply list_elem_of_fmap. eauto.
  - apply sort_newest_first_perm.
  - apply sort_newest_first_sorted.
  - intros m. apply sort_newest_first_stable.
  - done.
Qed.

(** ** batch_generate_product_videos.py *)

Section batch_facts.

Lemma batch_end_frame_truthy product_name :
  truthy (Some (batch_end_frame product_name)) = true.
Proof.
  apply truthy_true. eexists. split; [done|].
  unfold batch_end_frame, os_path_join.
  destruct (String.prefix _ _); [by destruct product_name|done].
Qed.

Lemma validate_config_cases config (fs : gset string) :
  (validate_config config fs = (true, None)
   ∧ ∃ product_name,
       Config.product_name config = Some product_name
       ∧ is_Some (Config.prompt config)
       ∧ batch_start_frame product_name ∈ fs
       ∧ (truthy (Config.end_frame config) = true →
          batch_end_frame product_name ∈ fs))
  ∨ (∃ msg, validate_config config fs = (false, Some msg)
     ∧ ¬ ∃ product_name,
           Config.product_name config = Some product_name
           ∧ is_Some (Config.prompt config)
           ∧ batch_start_frame product_name ∈ fs
           ∧ (truthy (Config.end_frame config) = true →
              batch_end_frame product_name ∈ fs)).
Proof.
  unfold validate_config.
  destruct (Config.product_name config) as [name|];
    [|right; eexists; split; [done|]; by intros (? & [=] & _)].
  destruct (Config.prompt config) as [prompt|];
    [|right; eexists; split; [done|]; by intros (? & _ & [? [=]] & _)].
  case_bool_decide as Hs; cbn [negb];
    [|right; eexists; split; [done|]; by intros (? & [= <-] & _ & ? & _)].
  destruct (truthy (Config.end_frame config)) eqn:Ht; cbn [andb].
  - case_bool_decide as He; cbn [negb].
    + left. split; [done|]. exists name. by eauto.
    + right. eexists. split; [done|].
      intros (? & [= <-] & _ & _ & H). by apply He, H.
  - left. split; [done|]. exists name. split_and!; by eauto.
Qed.

(** The loop appends one result per configuration, in order, each
    fitting its configuration; it raises only for a configuration without
    product name. *)
Lemma batch_loop_results i total configs s3_bucket region delay bedrock
    (fs : gset string) results tr r :
  batch_loop i total configs s3_bucket region delay bedrock fs results
  = (tr, Returned r) →
  match r with
  | Ret rs =>
      ∃ new, rs = results ++ new
             ∧ length new = length configs
             ∧ ∀ k config x,
                 configs !! k = Some config → new !! k = Some x →
                 result_fits (i + k) config s3_bucket region bedrock fs x
  | Raise e =>
      e = KeyError "product_name"
      ∧ ∃ config, config ∈ configs ∧ Config.product_name config = None
  end.
Proof.
  revert i results tr.
  induction configs as [|config configs IH]; intros i results tr.
  { intros [= <- <-]. exists []. rewrite app_nil_r. by split_and!. }
  cbn [batch_loop].
  destruct (Config.product_name config) as [name|] eqn:Hname.
  2:{ intros [= <- <-]. split; [done|]. exists config. split; [by left|done]. }
  assert (Hstep : ∀ x tr',
    result_fits i config s3_bucket region bedrock fs x →
    batch_loop (S i) total configs s3_bucket region delay bedrock fs
      (results ++ [x]) = (tr', Returned r) →
    match r with
    | Ret rs =>
        ∃ new, rs = results ++ new
               ∧ length new = length (config :: configs)
               ∧ ∀ k config' x',
                   (config :: configs) !! k = Some config' →
                   new !! k = Some x' →
                   result_fits (i + k) config' s3_bucket region bedrock fs x'
    | Raise e =>
        e = KeyError "product_name"
        ∧ ∃ config', config' ∈ config :: configs
                     ∧ Config.product_name config' = None
    end).
  { intros x tr' Hx Hloop. apply IH in Hloop. destruct r as [rs|e].
    - destruct Hloop as (new & -> & Hlen & Hfit).
      exists (x :: new). rewrite <- app_assoc. split; [done|].
      split; [by rewrite !length_cons, Hlen|].
      intros [|k] config' x'; simpl.
      + intros [= <-] [= <-]. by rewrite Nat.add_0_r.
      + intros Hc Hx'. replace (i + S k)%nat with (S i + k)%nat by lia.
        by apply (Hfit k).
    - destruct Hloop as (-> & config' & Hin & Hnone). split; [done|].
      exists config'. split; [by right|done]. }
  destruct (validate_config config fs) as [[] error_msg] eqn:Hvalid.
  - destruct (generate_video_with_keyframes _ _ _ _ _ _ _ _ _ _ _ _)
      as [trace [output_uri|]] eqn:Hgen; [|done].
    destruct (batch_loop (S i) _ _ _ _ _ _ _ _) as [later r'] eqn:Hloop.
    intros [= <- ->]. eapply (Hstep _ later); [|exact Hloop].
    exists name. split; [done|].
    destruct (validate_config_cases config fs) as [[Hv _]|(msg & Hv & _)];
      [|congruence].
    split_and!; try done. by rewrite Hgen.
  - intros Hloop. eapply (Hstep _ tr); [|exact Hloop].
    exists name. by split.
Qed.

End batch_facts.

(** X19. [validate_config] accepts a configuration exactly when it has a
    product name and a prompt, the start frame file of the product
    exists, and, if the configuration has a non-empty [end_frame], the end
    frame file exists; it then returns [(True, None)], and otherwise
    [False] with a message. *)
Theorem validate_config_accepts (config : Config.t) (fs : gset string) :
  let valid :=
    ∃ product_name,
      Config.product_name config = Some product_name
      ∧ is_Some (Config.prompt config)
      ∧ batch_start_frame product_name ∈ fs
      ∧ (truthy (Config.end_frame config) = true →
         batch_end_frame product_name ∈ fs) in
  (valid ↔ validate_config config fs = (true, None))
  ∧ (¬ valid ↔ ∃ msg, validate_config config fs = (false, Some msg)).
Proof.
  cbv zeta.
  destruct (validate_config_cases config fs) as [[Hv H]|(msg & Hv & H)];
    rewrite Hv.
  - split; [done|]. split; [done|]. by intros [? [=]].
  - split; [split; [done|by intros [=]]|]. split; [by eauto|done].
Qed.

(** X20. A configuration that [validate_config] accepts can still fail in
    the batch before Bedrock is contacted: the batch always hands the end
    frame path to the generator, which wants the file, while the
    validator wants it only for a configuration with a non-empty
    [end_frame].  With the end frame file missing, the result of an
    accepted configuration is a generation without URI, so not a
    success, and no status query is made. *)
Theorem accepted_config_fails_without_end_frame (config : Config.t)
    (product_name s3_bucket region : string) (delay_between : Z)
    (bedrock : nat → Bedrock.t) (fs : gset string) :
  Config.product_name config = Some product_name →
  validate_config config fs = (true, None) →
  batch_end_frame product_name ∉ fs →
  ∃ r,
    batch_generate_with_keyframes [config] s3_bucket region delay_between
      bedrock fs
    = ([Generation 1
          [Print_error ("End frame not found: "
                        +:+ batch_end_frame product_name)]],
       Returned (Ret [r]))
    ∧ r = Generated product_name None (batch_start_frame product_name)
            (batch_end_frame product_name)
    ∧ result_success r = false.
Proof.
  intros Hname Hvalid Hend.
  destruct (validate_config_cases config fs)
    as [(_ & name & Hname' & _ & Hstart & _)|(msg & Hv & _)]; [|congruence].
  assert (name = product_name) as -> by congruence.
  eexists. split; [|by split].
  unfold batch_generate_with_keyframes. cbn [batch_loop length].
  rewrite Hname, Hvalid. unfold generate_video_with_keyframes.
  rewrite (bool_decide_eq_true_2 _ Hstart). cbn [negb].
  assert (Ht : truthy (Some (batch_end_frame product_name)) = true)
    by apply batch_end_frame_truthy.
  rewrite Ht. cbn [andb default].
  rewrite (bool_decide_eq_false_2 _ Hend). done.
Qed.

Lemma accepted_config_fails_without_end_frame_witness :
  validate_config (plain_config "watch" "slow rotation")
    {["keyframes/watch_start_frame.jpg"]} = (true, None)
  ∧ (batch_end_frame "watch" ∉ ({["keyframes/watch_start_frame.jpg"]}
                                : gset string))
  ∧ ∃ r,
      batch_generate_with_keyframes [plain_config "watch" "slow rotation"]
        "my-bucket" "us-west-2" 30 (λ _, demo_bedrock)
        {["keyframes/watch_start_frame.jpg"]}
      = ([Generation 1
            [Print_error ("End frame not found: "
                          +:+ batch_end_frame "watch")]],
         Returned (Ret [r]))
      ∧ r = Generated "watch" None (batch_start_frame "watch")
              (batch_end_frame "watch")
      ∧ result_success r = false.
Proof.
  assert (H1 : validate_config (plain_config "watch" "slow rotation")
                 {["keyframes/watch_start_frame.jpg"]} = (true, None))
    by (vm_compute; reflexivity).
  assert (H2 : batch_end_frame "watch"
               ∉ ({["keyframes/watch_start_frame.jpg"]} : gset string)).
  { apply not_elem_of_singleton. vm_compute. discriminate. }
  split; [exact H1|]. split; [exact H2|].
  exact (accepted_config_fails_without_end_frame
           (plain_config "watch" "slow rotation") "watch" "my-bucket"
           "us-west-2" 30 (λ _, demo_bedrock)
           {["keyframes/watch_start_frame.jpg"]} eq_refl H1 H2).
Defined.

(** X21. When the batch returns a list, the list has one result per
    configuration, in the order of the configurations; the result at a
    position is the rejection with the validator's message, or the
    generation with what [generate_video_with_keyframes] returned for
    that position.  The batch raises only when a configuration has no
    product name, and then it raises [KeyError] and returns no results at
    all, also none for the configurations before. *)
Theorem batch_results_follow_configs (configs : list Config.t)
    (s3_bucket region : string) (delay_between : Z)
    (bedrock : nat → Bedrock.t) (fs : gset string)
    (tr : list batch_event) (r : outcome (list batch_result)) :
  batch_generate_with_keyframes configs s3_bucket region delay_between
    bedrock fs = (tr, Returned r) →
  match r with
  | Ret results =>
      length results = length configs
      ∧ ∀ k config x,
          configs !! k = Some config → results !! k = Some x →
          result_fits (S k) config s3_bucket region bedrock fs x
  | Raise e =>
      e = KeyError "product_name"
      ∧ ∃ config, config ∈ configs ∧ Config.product_name config = None
  end.
Proof.
  intros H%batch_loop_results. destruct r as [rs|e]; [|done].
  destruct H as (new & -> & Hlen & Hfit). by split.
Qed.

Lemma batch_results_follow_configs_witness :
  ∃ tr results,
    batch_generate_with_keyframes
      [plain_config "watch" "slow rotation";
       Config.mk (Some "lamp") None None None None None None]
      "my-bucket" "us-west-2" 0 (λ _, demo_bedrock)
      {["keyframes/watch_start_frame.jpg"; "keyframes/watch_end_frame.jpg"]}
    = (tr, Returned (Ret results))
    ∧ length results = 2%nat.
Proof.
  pose (res := batch_generate_with_keyframes
      [plain_config "watch" "slow rotation";
       Config.mk (Some "lamp") None None None None None None]
      "my-bucket" "us-west-2" 0 (λ _, demo_bedrock)
      {["keyframes/watch_start_frame.jpg"; "keyframes/watch_end_frame.jpg"]}).
  assert (H : ∃ rs, res.2 = Returned (Ret rs))
    by (eexists; vm_compute; reflexivity).
  destruct H as [rs H]. exists res.1, rs.
  assert (H' : res = (res.1, Returned (Ret rs)))
    by (rewrite <- H; by destruct res).
  split; [exact H'|].
  exact (proj1 (batch_results_follow_configs _ _ _ _ _ _ _ (Ret rs) H')).
Defined.

Section batch_event_facts.

Lemma batch_loop_events i total configs s3_bucket region delay bedrock
    (fs : gset string) results tr rs :
  batch_loop i total configs s3_bucket region delay bedrock fs results
  = (tr, Returned (Ret rs)) →
  generation_positions tr = accepted_positions i configs fs
  ∧ waiting_times tr
    = if (0 <? delay)%Z
      then replicate
             (length (filter (λ p, (p < total)%nat)
                        (accepted_positions i configs fs))) delay
      else [].
Proof.
  revert i results tr.
  induction configs as [|config configs IH]; intros i results tr.
  { intros [= <- <-]. split; [done|]. by destruct (0 <? delay)%Z. }
  cbn [batch_loop accepted_positions].
  destruct (Config.product_name config) as [name|]; [|done].
  destruct (validate_config config fs) as [[] error_msg]; cbn [fst].
  - destruct (generate_video_with_keyframes _ _ _ _ _ _ _ _ _ _ _ _)
      as [trace [output_uri|]]; [|done].
    destruct (batch_loop (S i) _ _ _ _ _ _ _ _) as [later r'] eqn:Hloop.
    intros [= <- ->]. apply IH in Hloop as [Hg Hw].
    unfold generation_positions, waiting_times in *.
    cbn [omap list_omap app]. rewrite !omap_app, Hg, Hw. split.
    + by destruct ((i <? total)%nat && (0 <? delay)%Z).
    + rewrite filter_cons. destruct (0 <? delay)%Z eqn:Hd.
      * destruct (i <? total)%nat eqn:Hi; cbn [andb].
        -- apply Nat.ltb_lt in Hi. by rewrite decide_True.
        -- apply Nat.ltb_ge in Hi. rewrite decide_False by lia. done.
      * rewrite andb_false_r. done.
  - intros Hloop. by apply IH in Hloop.
Qed.

End batch_event_facts.

(** X22. In a batch that returns its results, Bedrock is asked for the
    configurations the validator accepts and for no others, in order, and
    the batch waits [delay_between] seconds once after each generation
    whose position is not the last of the list, also when only rejected
    configurations follow, and never when [delay_between] is not
    positive. *)
Theorem batch_generates_accepted_only (configs : list Config.t)
    (s3_bucket region : string) (delay_between : Z)
    (bedrock : nat → Bedrock.t) (fs : gset string)
    (tr : list batch_event) (results : list batch_result) :
  batch_generate_with_keyframes configs s3_bucket region delay_between
    bedrock fs = (tr, Returned (Ret results)) →
  generation_positions tr = accepted_positions 1 configs fs
  ∧ waiting_times tr
    = if (0 <? delay_between)%Z
      then replicate
             (length (filter (λ p, (p < length configs)%nat)
                        (accepted_positions 1 configs fs))) delay_between
      else [].
Proof. apply batch_loop_events. Qed.

Lemma batch_generates_accepted_only_witness :
  ∃ tr results,
    batch_generate_with_keyframes
      [plain_config "watch" "slow rotation";
       Config.mk (Some "lamp") None None None None None None]
      "my-bucket" "us-west-2" 30 (λ _, demo_bedrock)
      {["keyframes/watch_start_frame.jpg"; "keyframes/watch_end_frame.jpg"]}
    = (tr, Returned (Ret results))
    ∧ generation_positions tr = [1%nat]
    ∧ waiting_times tr = [30].
Proof.
  pose (configs := [plain_config "watch" "slow rotation";
                    Config.mk (Some "lamp") None None None None None None]).
  pose (fs := ({["keyframes/watch_start_frame.jpg";
                 "keyframes/watch_end_frame.jpg"]} : gset string)).
  pose (res := batch_generate_with_keyframes configs
                 "my-bucket" "us-west-2" 30 (λ _, demo_bedrock) fs).
  assert (H : ∃ rs, res.2 = Returned (Ret rs))
    by (eexists; vm_compute; reflexivity).
  destruct H as [rs H]. exists res.1, rs.
  assert (H' : res = (res.1, Returned (Ret rs)))
    by (rewrite <- H; by destruct res).
  split; [exact H'|].
  assert (Ha : accepted_positions 1 configs fs = [1%nat])
    by (vm_compute; reflexivity).
  pose proof (batch_generates_accepted_only configs "my-bucket" "us-west-2"
                30 (λ _, demo_bedrock) fs res.1 rs H') as [Hg Hw].
  rewrite Ha in Hg, Hw. split; [exact Hg|exact Hw].
Defined.

(** X23. The command line of [generate_video_with_keyframes.py] passes
    the test on its length with four arguments, but then has no prompt of
    its own: the fourth argument is the prompt and, unless it is ["-"],
    also the path of the end frame.  So a call with four arguments whose
    fourth is a prompt (not ["-"], not empty, not a file) exits with code
    1 after one error message, without a request to Bedrock. *)
Theorem main_four_arguments (lower : string → string)
    (program product_name s3_bucket start_frame argv4 : string)
    (environ : Environ.t) (bedrock : Bedrock.t) (fs : gset string) :
  argv4 ≠ "-" → argv4 ≠ "" → argv4 ∉ fs →
  GenerateVideoCli.main_arguments
    [program; product_name; s3_bucket; start_frame; argv4]
  = Some (GenerateVideoCli.mkArguments product_name s3_bucket start_frame
            (Some argv4) argv4)
  ∧ ∃ msg,
      GenerateVideoCli.main lower
        [program; product_name; s3_bucket; start_frame; argv4]
        environ bedrock fs
      = ([Generating [Print_error msg]], Returned 1).
Proof.
  intros Hdash Hempty Hfile.
  assert (Hargs : GenerateVideoCli.main_arguments
            [program; product_name; s3_bucket; start_frame; argv4]
          = Some (GenerateVideoCli.mkArguments product_name s3_bucket
                    start_frame (Some argv4) argv4)).
  { unfold GenerateVideoCli.main_arguments.
    by rewrite (proj2 (String.eqb_neq argv4 "-") Hdash). }
  split; [exact Hargs|].
  unfold GenerateVideoCli.main. rewrite Hargs.
  cbn [GenerateVideoCli.product_name GenerateVideoCli.prompt
       GenerateVideoCli.s3_bucket GenerateVideoCli.start_frame
       GenerateVideoCli.end_frame].
  unfold generate_video_with_keyframes.
  case_bool_decide as Hs; cbn [negb]; [|by eexists].
  assert (Ht : truthy (Some argv4) = true).
  { unfold truthy. by rewrite (proj2 (String.eqb_neq argv4 "") Hempty). }
  rewrite Ht. cbn [default andb].
  rewrite (bool_decide_eq_false_2 _ Hfile). cbn [negb]. by eexists.
Qed.

Lemma main_four_arguments_witness :
  ∃ msg,
    GenerateVideoCli.main (λ s, s)
      ["generate_video_with_keyframes.py"; "watch_01"; "my-bucket";
       "watch_01_start.jpg"; "Camera slowly orbits around the watch"]
      (Environ.mk None None None None None) demo_bedrock
      {["watch_01_start.jpg"]}
    = ([Generating [Print_error msg]], Returned 1).
Proof.
  refine (proj2 (main_four_arguments (λ s, s)
            "generate_video_with_keyframes.py" "watch_01" "my-bucket"
            "watch_01_start.jpg" "Camera slowly orbits around the watch"
            (Environ.mk None None None None None) demo_bedrock
            {["watch_01_start.jpg"]} _ _ _)).
  - discriminate.
  - discriminate.
  - apply not_elem_of_singleton. discriminate.
Defined.
